(** * metahelm: dependency-ordered installation of Helm chart graphs

    A shallow embedding of the scheduler core of [pkg/metahelm] (the
    [Install] entry point, its per-chart visitor, the readiness poll and
    the failure aggregator of [ChartError]) together with models of the
    collaborators whose sources live elsewhere in the repository (the
    [dag] package, the chart declarations, the release-name sanitizer and
    the upgrade entry point). *)

From Stdlib Require Import ZArith List Lia Bool.
From stdpp Require Import gmap strings list fin_maps pretty.
Import ListNotations.

Local Open Scope string_scope.
Local Open Scope Z_scope.

(** ** Errors

    A Go [error] is modelled by its message; [nil] is [None]. *)

Definition error := string.

(** [errors.Wrap(err, msg)]: [nil] stays [nil], otherwise the message is
    prefixed. *)
Definition Wrap (err : option error) (msg : string) : option error :=
  match err with
  | None => None
  | Some e => Some (msg +:+ ": " +:+ e)
  end.

(** [fmt.Sprintf("%v", ss)] for a slice of strings. *)
Definition fmt_slice (ss : list string) : string :=
  "[" +:+ String.concat " " ss +:+ "]".

(** ** The failure aggregator ([ChartError]) *)

Module Failures.

(** *** The parts of the Kubernetes objects the aggregator reads *)

(** [corev1.PodPhase] is a string type; these are its two constants the
    code compares with. *)
Definition PodRunning : string := "Running".
Definition PodSucceeded : string := "Succeeded".

Definition PodCondition := string.

Record ContainerStatus := {
  cs_Name : string;
  cs_Ready : bool;
  (** [LastTerminationState.Terminated], with its [ExitCode] when set *)
  cs_Terminated : option Z
}.

Record Pod := {
  pod_Name : string;
  pod_Phase : string;
  pod_Message : string;
  pod_Reason : string;
  pod_Conditions : list PodCondition;
  pod_ContainerStatuses : list ContainerStatus
}.

(** [Spec.Selector] is a pointer; [MatchLabels] is listed in the order in
    which the [range] over the map visits it. *)
Definition LabelSelector := list (string * string).

Record Deployment := {
  d_Replicas : option Z;
  d_Selector : option LabelSelector
}.

Record Workload := { wl_Selector : option LabelSelector }.

Record PodLogOptions := {
  TailLines : option Z;
  Container : string
}.

Inductive LogResult :=
| LogStreamError (e : error)
| LogReadError (e : error)
| LogBytes (b : list Byte.byte).

(** The calls of [K8sClient] the aggregator makes, all of them reads. *)
Record K8sClient := {
  Deployments_Get : string -> string -> option Deployment * option error;
  GetNewReplicaSet : Deployment -> option unit * option error;
  Jobs_Get : string -> string -> Workload * option error;
  DaemonSets_Get : string -> string -> Workload * option error;
  Pods_List : string -> string -> option (list Pod) * option error;
  Pods_GetLogs : string -> string -> PodLogOptions -> LogResult
}.

(** A release, with its manifest already split into its documents. *)
Record Manifest := { m_Name : string; m_Kind : string }.

Record Release := {
  rls_Namespace : string;
  rls_Manifests : list Manifest
}.

(** *** [FailedPod] and [ChartError] *)

Record FailedPod := {
  fp_Name : string;
  fp_Phase : string;
  fp_Message : string;
  fp_Reason : string;
  fp_Conditions : list PodCondition;
  fp_ContainerStatuses : list ContainerStatus;
  fp_Logs : gmap string (list Byte.byte)
}.

(** Go maps are references. The three maps of a [ChartError] live in a
    store and the struct holds their addresses ([None] is the nil map),
    so that a copy of the struct shares them; the slice field
    [FailedPods] is part of the struct value itself. *)
Definition loc := nat.
Definition store := gmap loc (gmap string (list FailedPod)).

Record ChartError := {
  FailedPods : list FailedPod;
  FailedDaemonSets : option loc;
  FailedDeployments : option loc;
  FailedJobs : option loc
}.

Definition fresh (h : store) : loc := S (max_list (elements (dom h))).

(** [NewChartError]: three fresh empty maps and an empty slice. *)
Definition NewChartError (h : store) : ChartError * store :=
  let l1 := fresh h in
  let h1 := <[l1 := ∅]> h in
  let l2 := fresh h1 in
  let h2 := <[l2 := ∅]> h1 in
  let l3 := fresh h2 in
  let h3 := <[l3 := ∅]> h2 in
  ({| FailedPods := [];
      FailedDaemonSets := Some l1;
      FailedDeployments := Some l2;
      FailedJobs := Some l3 |}, h3).

(** What a call does: it returns an error value or panics. *)
Inductive outcome :=
| Returned (err : option error)
| Panicked.

(** [mp[k] = v] through a map reference; assigning into the nil map
    panics. *)
Definition map_assign (h : store) (mp : option loc) (k : string)
    (v : list FailedPod) : option store :=
  match mp with
  | None => None
  | Some l =>
      match h !! l with
      | None => None
      | Some m => Some (<[l := <[k := v]> m]> h)
      end
  end.

(** The map a reference points to, as the caller reads it. *)
Definition deref (h : store) (mp : option loc) : gmap string (list FailedPod) :=
  match mp with
  | None => ∅
  | Some l => default ∅ (h !! l)
  end.

(** [int64(maxloglines)] for [maxloglines : uint]. *)
Definition int64_of_uint (n : Z) : Z :=
  let m := n mod 2 ^ 64 in
  if m <? 2 ^ 63 then m else m - 2 ^ 64.

Definition maxlines_of (maxloglines : Z) : option Z :=
  if 0 <? maxloglines then Some (int64_of_uint maxloglines) else None.

(** [ss = append(ss, fmt.Sprintf("%v = %v", k, v))] over the labels. *)
Definition selector_strings (ls : LabelSelector) : list string :=
  map (fun kv => fst kv +:+ " = " +:+ snd kv) ls.

(** The phase test of both collectors, as it is written:
    [pod.Status.Phase != corev1.PodRunning || pod.Status.Phase != corev1.PodSucceeded]. *)
Definition phase_test (phase : string) : bool :=
  negb (String.eqb phase PodRunning) || negb (String.eqb phase PodSucceeded).

(** The log loop over [fp.ContainerStatuses]: the first failing fetch
    ends the whole call with its error. *)
Fixpoint collect_logs (kc : K8sClient) (ns podname : string)
    (css : list ContainerStatus) (plopts : PodLogOptions)
    (logs : gmap string (list Byte.byte))
    : error + (gmap string (list Byte.byte) * PodLogOptions) :=
  match css with
  | [] => inr (logs, plopts)
  | cs :: rest =>
      if negb (cs_Ready cs)
         && match cs_Terminated cs with
            | Some code => negb (code =? 0)
            | None => false
            end
      then
        let plopts' := {| TailLines := TailLines plopts; Container := cs_Name cs |} in
        match Pods_GetLogs kc ns podname plopts' with
        | LogStreamError e => inl ("error getting logs for pod: " +:+ podname +:+ ": " +:+ e)
        | LogReadError e => inl ("error reading logs for pod: " +:+ podname +:+ ": " +:+ e)
        | LogBytes b => collect_logs kc ns podname rest plopts' (<[cs_Name cs := b]> logs)
        end
      else collect_logs kc ns podname rest plopts logs
  end.

(** The loop over [pl.Items], shared in text by both collectors. *)
Fixpoint collect_pods (kc : K8sClient) (ns : string) (pods : list Pod)
    (plopts : PodLogOptions) (failedpods : list FailedPod)
    : error + (list FailedPod * PodLogOptions) :=
  match pods with
  | [] => inr (failedpods, plopts)
  | pod :: rest =>
      if phase_test (pod_Phase pod) then
        match collect_logs kc ns (pod_Name pod) (pod_ContainerStatuses pod) plopts ∅ with
        | inl e => inl e
        | inr (logs, plopts') =>
            let fp := {| fp_Name := pod_Name pod;
                         fp_Phase := pod_Phase pod;
                         fp_Message := pod_Message pod;
                         fp_Reason := pod_Reason pod;
                         fp_Conditions := pod_Conditions pod;
                         fp_ContainerStatuses := pod_ContainerStatuses pod;
                         fp_Logs := logs |} in
            collect_pods kc ns rest plopts' (failedpods ++ [fp])%list
        end
      else collect_pods kc ns rest plopts failedpods
  end.

(** The state a call works on: its own copy [ce] of the receiver (both
    collectors have the value receiver [(ce ChartError)]), the store of
    maps, and the log options, whose [Container] the log loop overwrites. *)
Record frame := {
  f_ce : ChartError;
  f_store : store;
  f_plopts : PodLogOptions
}.

(** One turn of a loop body either goes on to the next turn or leaves the
    function. *)
Inductive flow :=
| Next (f : frame)
| Leave (o : outcome) (f : frame).

(** The selector strings [ss] that the first [switch] of
    [PopulateFromRelease] leaves in the variable declared at the top of
    the loop body; [Skip] stands for [continue]. In the [Job] and
    [DaemonSet] cases the source declares a second [ss] with [:=] inside
    the case, the appends go to that inner variable, and the outer one
    keeps its initial empty value. *)
Inductive selected :=
| Selector (ss : list string)
| Skip
| Exit (o : outcome).

Definition select (kc : K8sClient) (ns : string) (m : Manifest) : selected :=
  let ss : list string := [] in
  if decide (m_Kind m = "Deployment") then
    let '(d, err) := Deployments_Get kc ns (m_Name m) in
    match err, d with
    | Some _, _ => Exit (Returned (Wrap err "error getting deployment"))
    | None, None => Exit Panicked
    | None, Some d =>
        match d_Replicas d with
        | None => Exit (Returned (Wrap err "error getting deployment"))
        | Some _ =>
            let '(rs, err) := GetNewReplicaSet kc d in
            match err, rs with
            | Some _, _ | None, None => Exit (Returned (Wrap err "error replica set"))
            | None, Some _ =>
                match d_Selector d with
                | None => Exit Panicked
                | Some labels => Selector (ss ++ selector_strings labels)%list
                end
            end
        end
    end
  else if decide (m_Kind m = "Job") then
    let '(j, err) := Jobs_Get kc ns (m_Name m) in
    match err with
    | Some _ => Exit (Returned (Wrap err "error getting job"))
    | None =>
        match wl_Selector j with
        | None => Exit Panicked
        | Some labels =>
            let ss_inner : list string := ([] ++ selector_strings labels)%list in
            Selector ss
        end
    end
  else if decide (m_Kind m = "DaemonSet") then
    let '(ds, err) := DaemonSets_Get kc ns (m_Name m) in
    match err with
    | Some _ => Exit (Returned (Wrap err "error getting daemonset"))
    | None =>
        match wl_Selector ds with
        | None => Exit Panicked
        | Some labels =>
            let ss_inner : list string := ([] ++ selector_strings labels)%list in
            Selector ss
        end
    end
  else if decide (m_Kind m = "Pod") then Selector ss
  else Skip.

(** The second [switch]: where the collected pods are stored. The three
    map cases write through the shared references; the [Pod] case
    assigns the field of the callee's own copy. *)
Definition record_failed (f : frame) (m : Manifest) (failedpods : list FailedPod)
    (plopts : PodLogOptions) : flow :=
  let ce := f_ce f in
  let via (mp : option loc) :=
    match map_assign (f_store f) mp (m_Name m) failedpods with
    | None => Leave Panicked f
    | Some h => Next {| f_ce := ce; f_store := h; f_plopts := plopts |}
    end in
  if decide (m_Kind m = "Deployment") then via (FailedDeployments ce)
  else if decide (m_Kind m = "Job") then via (FailedJobs ce)
  else if decide (m_Kind m = "DaemonSet") then via (FailedDaemonSets ce)
  else if decide (m_Kind m = "Pod") then
    Next {| f_ce := {| FailedPods := failedpods;
                       FailedDaemonSets := FailedDaemonSets ce;
                       FailedDeployments := FailedDeployments ce;
                       FailedJobs := FailedJobs ce |};
            f_store := f_store f; f_plopts := plopts |}
  else Next {| f_ce := ce; f_store := f_store f; f_plopts := plopts |}.

(** The body of the loop over the manifests of the release. *)
Definition release_body (kc : K8sClient) (ns : string) (f : frame) (m : Manifest) : flow :=
  match select kc ns m with
  | Exit o => Leave o f
  | Skip => Next f
  | Selector ss =>
      if (length ss =? 0)%nat then Next f
      else
        let '(pl, err) := Pods_List kc ns (String.concat "," ss) in
        match err, pl with
        | Some _, _ | None, None =>
            Leave (Returned (Wrap err ("error listing pods for selector: " +:+ fmt_slice ss))) f
        | None, Some items =>
            match collect_pods kc ns items (f_plopts f) [] with
            | inl e => Leave (Returned (Some e)) f
            | inr (failedpods, plopts) => record_failed f m failedpods plopts
            end
        end
  end.

Fixpoint release_loop (kc : K8sClient) (ns : string) (f : frame) (ms : list Manifest)
    : outcome * frame :=
  match ms with
  | [] => (Returned None, f)
  | m :: rest =>
      match release_body kc ns f m with
      | Leave o f' => (o, f')
      | Next f' => release_loop kc ns f' rest
      end
  end.

(** [func (ce ChartError) PopulateFromRelease(rls, kc, maxloglines) error].
    The result is the outcome together with the callee's frame at the
    end, whose store is the one the caller goes on with. *)
Definition PopulateFromRelease (ce : ChartError) (h : store) (rls : option Release)
    (kc : K8sClient) (maxloglines : Z) : outcome * frame :=
  let f := {| f_ce := ce; f_store := h;
              f_plopts := {| TailLines := maxlines_of maxloglines; Container := "" |} |} in
  match rls with
  | None => (Returned (Some "release is nil"), f)
  | Some r => release_loop kc (rls_Namespace r) f (rls_Manifests r)
  end.

(** [func (ce ChartError) PopulateFromDeployment(namespace, deploymentName, kc, maxloglines) error]. *)
Definition PopulateFromDeployment (ce : ChartError) (h : store)
    (namespace deploymentName : string) (kc : K8sClient) (maxloglines : Z)
    : outcome * frame :=
  let f := {| f_ce := ce; f_store := h;
              f_plopts := {| TailLines := maxlines_of maxloglines; Container := "" |} |} in
  let '(d, err) := Deployments_Get kc namespace deploymentName in
  match err, d with
  | Some _, _ => (Returned (Wrap err "error getting deployment"), f)
  | None, None => (Panicked, f)
  | None, Some d =>
      match d_Replicas d with
      | None => (Returned (Wrap err "error getting deployment"), f)
      | Some _ =>
          let '(rs, err) := GetNewReplicaSet kc d in
          match err, rs with
          | Some _, _ | None, None => (Returned (Wrap err "error replica set"), f)
          | None, Some _ =>
              match d_Selector d with
              | None => (Panicked, f)
              | Some labels =>
                  let ss := selector_strings labels in
                  let '(pl, err) := Pods_List kc namespace (String.concat "," ss) in
                  match err, pl with
                  | Some _, _ | None, None =>
                      (Returned (Wrap err ("error listing pods for selector: " +:+ fmt_slice ss)), f)
                  | None, Some items =>
                      match collect_pods kc namespace items (f_plopts f) [] with
                      | inl e => (Returned (Some e), f)
                      | inr (failedpods, plopts) =>
                          match map_assign h (FailedDeployments ce) deploymentName failedpods with
                          | None => (Panicked, f)
                          | Some h' =>
                              (Returned None,
                               {| f_ce := ce; f_store := h'; f_plopts := plopts |})
                          end
                      end
                  end
              end
          end
      end
  end.

(** What the caller holds after a call [ce.PopulateFrom...(...)]: its own
    struct value, which the call received by copy, and the store the
    call left behind. *)
Definition caller_view (ce : ChartError) (res : outcome * frame) : ChartError * store :=
  (ce, f_store (snd res)).

End Failures.

(** ** Charts *)

(** Modelled from the spec: the health indication of section 3, whose
    Go declaration is in a file of the package that is not among the
    sources. The three recognized variants are the named constants; any
    other value of the underlying integer type is [OtherIndication]. *)
Inductive HealthIndication :=
| IgnorePodHealth
| AllPodsHealthy
| AtLeastOnePodHealthy
| OtherIndication (raw : Z).

(** Modelled from the spec: the chart record of section 3, declared in
    the same file. The fields carry the names that [metahelm.go], its
    tests and [cmd/install.go] use. *)
Record Chart := {
  Title : string;
  Location : string;
  ValueOverrides : list Byte.byte;
  WaitUntilDeployment : string;
  WaitUntilHelmSaysItsReady : bool;
  WaitTimeout : Z;
  DeploymentHealthIndication : HealthIndication;
  DependencyList : list string
}.

(** Modelled from the spec: two more declarations of that file, which
    [Install] refers to. [sanitize] is the derivation of
    [Chart.name()] from the title (section 3: lowercased, whitespace
    replaced, reserved characters stripped), left open; the module-level
    constant [DefaultDeploymentTimeout] is the default of [wait_timeout]. *)
Class ChartDecls := {
  sanitize : string -> string;
  DefaultDeploymentTimeout : Z
}.

(** Modelled from the spec: [Chart.name()], the key of the chart in the
    graph. *)
Definition Name `{ChartDecls} (c : Chart) : string := sanitize (Title c).

(** ** The [dag] package *)

Module dag.

(** Modelled from the spec: the graph object of section 3 and the DAG
    builder of section 4.2. Nodes are keyed by name, each with the names
    it depends on; [Build] rejects a dependency that names no node and,
    by iterated removal of the nodes all of whose dependencies are
    already removed, a cycle. *)
Record GraphObject := {
  go_Name : string;
  go_Dependencies : list string
}.

Definition ObjectGraph := gmap string (list string).

Definition adjacency (objs : list GraphObject) : gmap string (list string) :=
  foldl (fun g o => <[go_Name o := go_Dependencies o]> g) ∅ objs.

Definition dangling (g : gmap string (list string)) : list string :=
  filter (fun d => g !! d = None) (concat (map snd (map_to_list g))).

Definition frontier (g : gmap string (list string)) (removed : gset string) : list string :=
  map fst (filter (fun nd => (fst nd ∉ removed) /\ (forallb (fun d => bool_decide (d ∈ removed)) (snd nd) = true))
                  (map_to_list g)).

Fixpoint kahn (rounds : nat) (g : gmap string (list string)) (removed : gset string) : bool :=
  if bool_decide (dom g ⊆ removed) then true
  else
    match rounds with
    | O => false
    | S rounds' =>
        match frontier g removed with
        | [] => false
        | ready => kahn rounds' g (removed ∪ list_to_set ready)
        end
    end.

(** Modelled from the spec: [build(nodes)] of section 4.2, with its two
    failures, the dangling edge and the cycle. *)
Definition Build (objs : list GraphObject) : gmap string (list string) + error :=
  let g := adjacency objs in
  match dangling g with
  | d :: _ => inr ("unknown dependency: " +:+ d)
  | [] => if kahn (size g) g ∅ then inl g else inr "dependency cycle"
  end.

(** Modelled from the spec: the wave executor of section 4.3. Every
    node is a task that waits for its predecessors, calls the visitor and
    publishes its completion. A run of the executor is the sequence of
    its events, in the order in which they happen:
    - [Call n], the visitor is called on [n]: allowed for a node not yet
      started, while nothing has halted the walk, once every dependency
      of [n] has returned success;
    - [Ret n r], the visitor returns [r] on [n]: its effect on the shared
      state is applied at this point, and the first error halts the walk;
    - [Cancel], the caller's cancellation signal fires.
    The walk returns once it is halted or all nodes succeeded, and no
    visitor is in flight. *)
Inductive event :=
| Call (n : string)
| Ret (n : string) (r : option error)
| Cancel.

Inductive visit (W : Type) :=
| Visited (r : option error) (w : W)
| Unfinished.
Arguments Visited {W} r w.
Arguments Unfinished {W}.

Record walk_state (W : Type) := {
  started : gset string;
  in_flight : gset string;
  succeeded : gset string;
  halted : option error;
  shared : W
}.
Arguments started {W} _.
Arguments in_flight {W} _.
Arguments succeeded {W} _.
Arguments halted {W} _.
Arguments shared {W} _.

Section Walk.
Context {W : Type}.
Variable g : gmap string (list string).
Variable visitor : string -> W -> visit W.

Definition walk_init (w : W) : walk_state W :=
  {| started := ∅; in_flight := ∅; succeeded := ∅; halted := None; shared := w |}.

Definition returned (st : walk_state W) : bool :=
  bool_decide (in_flight st = ∅)
  && (bool_decide (halted st <> None) || bool_decide (dom g ⊆ succeeded st)).

Definition ready (st : walk_state W) (n : string) : bool :=
  match g !! n with
  | None => false
  | Some deps =>
      bool_decide (n ∉ started st)
      && bool_decide (halted st = None)
      && forallb (fun d => bool_decide (d ∈ succeeded st)) deps
  end.

Definition walk_step (st : walk_state W) (ev : event) : option (walk_state W) :=
  if returned st then None
  else
    match ev with
    | Call n =>
        if ready st n then
          Some {| started := {[n]} ∪ started st; in_flight := {[n]} ∪ in_flight st;
                  succeeded := succeeded st; halted := halted st; shared := shared st |}
        else None
    | Ret n r =>
        if bool_decide (n ∈ in_flight st) then
          match visitor n (shared st) with
          | Visited r' w' =>
              if bool_decide (r = r') then
                Some {| started := started st;
                        in_flight := in_flight st ∖ {[n]};
                        succeeded := match r with
                                     | None => {[n]} ∪ succeeded st
                                     | Some _ => succeeded st
                                     end;
                        halted := match halted st with
                                  | Some e => Some e
                                  | None => r
                                  end;
                        shared := w' |}
              else None
          | Unfinished => None
          end
        else None
    | Cancel =>
        Some {| started := started st; in_flight := in_flight st;
                succeeded := succeeded st;
                halted := match halted st with
                          | Some e => Some e
                          | None => Some "context canceled"
                          end;
                shared := shared st |}
    end.

Fixpoint walk_run (st : walk_state W) (evs : list event) : option (walk_state W) :=
  match evs with
  | [] => Some st
  | ev :: rest =>
      match walk_step st ev with
      | None => None
      | Some st' => walk_run st' rest
      end
  end.

(** Modelled from the spec: [walk(ctx, visitor)] of section 4.3 along
    a run: the error it returns and the shared state it leaves, or [None]
    when [evs] is not a run of the executor up to its return. *)
Definition Walk (w : W) (evs : list event) : option (option error * W) :=
  match walk_run (walk_init w) evs with
  | None => None
  | Some st => if returned st then Some (halted st, shared st) else None
  end.

End Walk.

End dag.

(** ** [Manager.Install] and its visitor *)

Module Metahelm.

(** *** What the manager talks to *)

(** What a run of [Install] does to the outside, newest first: the
    calls of the caller's callback, of the Helm client and of the
    Kubernetes client, the sleeps, and the two calls into [dag]. *)
Inductive Effect :=
| CallbackInvoked (c : Chart)
| Slept (d : Z)
| InstallReleaseCalled (chstr ns : string) (overrides : list Byte.byte)
| DeploymentFetched (ns name : string)
| ReplicaSetFetched (name : string)
| GraphBuilt
| WalkStarted.

Record Deployment := { dep_Name : string; Replicas : option Z }.
Record ReplicaSet := { ReadyReplicas : Z }.

(** The two clients. Their answers may depend on what has happened so
    far, which is how a cluster that changes between two polls, or a
    client that fails on its second call, is described. *)
Record Manager := {
  InstallRelease : list Effect -> string -> string -> list Byte.byte -> string + error;
  Deployments_Get : list Effect -> string -> string -> Deployment * option error;
  GetNewReplicaSet : list Effect -> Deployment -> option ReplicaSet * option error
}.

(** [InstallCallbackAction], an [int] with three named values. *)
Definition InstallCallbackAction := Z.
Definition Continue : InstallCallbackAction := 0.
Definition Wait : InstallCallbackAction := 1.
Definition Abort : InstallCallbackAction := 2.

(** [InstallCallback]: a closure of the caller, whose answer may depend
    on what has happened so far. As a function value it may be nil, which
    is [None] where it is stored. *)
Definition InstallCallback := list Effect -> Chart -> InstallCallbackAction.

Record options := {
  k8sNamespace : string;
  tillerNamespace : string;
  installCallback : option InstallCallback
}.

Definition InstallOption := options -> options.

Definition WithK8sNamespace (ns : string) : InstallOption :=
  fun op => {| k8sNamespace := ns; tillerNamespace := tillerNamespace op;
               installCallback := installCallback op |}.


Definition WithInstallCallback (cb : option InstallCallback) : InstallOption :=
  fun op => {| k8sNamespace := k8sNamespace op; tillerNamespace := tillerNamespace op;
               installCallback := cb |}.

Definition DefaultK8sNamespace : string := "default".
Definition retryDelay : Z := 10 * 1000000000.
Definition chartWaitPollInterval : Z := 10 * 1000000000.

(** The state the visitors share: the effects so far and [rn.rmap]. *)
Record World := {
  history : list Effect;
  rmap : gmap string string
}.

(** *** [waitForChart] *)

(** The condition function handed to [wait.Poll]: one look at the
    deployment and its new replica set. *)
Definition poll_condition (m : Manager) (c : Chart) (ns : string) (h : list Effect)
    : bool * option error * list Effect :=
  let '(d, err) := Deployments_Get m h ns (WaitUntilDeployment c) in
  let h1 := DeploymentFetched ns (WaitUntilDeployment c) :: h in
  match err, Replicas d with
  | Some _, _ | None, None => (false, Wrap err "error getting deployment", h1)
  | None, Some replicas =>
      let '(rs, err) := GetNewReplicaSet m h1 d in
      let h2 := ReplicaSetFetched (WaitUntilDeployment c) :: h1 in
      match err with
      | Some _ => (false, Wrap err "error getting new replica set", h2)
      | None =>
          match rs with
          | Some rs =>
              let needed :=
                match DeploymentHealthIndication c with
                | AllPodsHealthy => replicas
                | _ => 1
                end in
              (needed <=? ReadyReplicas rs, None, h2)
          | None => (false, None, h2)
          end
      end
  end.

(** [wait.Poll(interval, timeout, condition)] of apimachinery: wait one
    interval, call the condition, and stop on its error or on [true];
    when the timeout has passed, give up with [ErrWaitTimeout]. The
    condition is called at least once. *)
Definition ErrWaitTimeout : error := "timed out waiting for the condition".

Fixpoint poll_ticks (ticks : nat) (interval : Z)
    (condition : list Effect -> bool * option error * list Effect) (h : list Effect)
    : option error * list Effect :=
  match ticks with
  | O => (Some ErrWaitTimeout, h)
  | S ticks' =>
      let '(ok, err, h1) := condition (Slept interval :: h) in
      match err with
      | Some e => (Some e, h1)
      | None => if ok then (None, h1) else poll_ticks ticks' interval condition h1
      end
  end.

Definition Poll (interval timeout : Z)
    (condition : list Effect -> bool * option error * list Effect) (h : list Effect)
    : option error * list Effect :=
  poll_ticks (Z.to_nat (Z.max 1 (timeout / interval))) interval condition h.

Definition waitForChart (m : Manager) (c : Chart) (ns : string) (h : list Effect)
    : option error * list Effect :=
  match DeploymentHealthIndication c with
  | IgnorePodHealth => (None, h)
  | _ => Poll chartWaitPollInterval (WaitTimeout c) (poll_condition m c ns) h
  end.

(** *** The visitor [af] *)

(** How the [for] loop around the callback ends: by the [break] of its
    first statement, by a [return], or not within the given number of
    turns. The [break] under [case Continue] is inside the [switch] and
    ends the [switch]; the loop then takes its next turn. *)
Inductive loop_end :=
| Broke (h : list Effect)
| Returns (e : error) (h : list Effect)
| Spins (h : list Effect).

Fixpoint callback_loop (turns : nat) (cb : option InstallCallback) (c : Chart)
    (h : list Effect) : loop_end :=
  match turns with
  | O => Spins h
  | S turns' =>
      match cb with
      | None => Broke h
      | Some f =>
          let v := f h c in
          let h1 := CallbackInvoked c :: h in
          if v =? Continue then callback_loop turns' cb c h1
          else if v =? Wait then callback_loop turns' cb c (Slept retryDelay :: h1)
          else if v =? Abort then Returns "callback requested abort" h1
          else Returns ("unknown callback result: " +:+ pretty v) h1
      end
  end.

(** [cmap] holds pointers into the caller's slice: a name is mapped to
    an index of [charts]. *)
Definition af `{ChartDecls} (m : Manager) (ops : options) (charts : list Chart)
    (cmap : gmap string nat) (turns : nat) (obj : string) (w : World) : dag.visit World :=
  match cmap !! obj ≫= (charts !!.) with
  | None => dag.Unfinished (* a nil pointer is dereferenced *)
  | Some c =>
      match callback_loop turns (installCallback ops) c (history w) with
      | Spins _ => dag.Unfinished
      | Returns e h => dag.Visited (Some e) {| history := h; rmap := rmap w |}
      | Broke h =>
          let h1 := InstallReleaseCalled (Location c) (k8sNamespace ops) (ValueOverrides c) :: h in
          match InstallRelease m h (Location c) (k8sNamespace ops) (ValueOverrides c) with
          | inr e =>
              dag.Visited (Wrap (Some e) "error installing chart")
                          {| history := h1; rmap := rmap w |}
          | inl name =>
              let '(err, h2) := waitForChart m c (k8sNamespace ops) h1 in
              dag.Visited err {| history := h2; rmap := <[Title c := name]> (rmap w) |}
          end
      end
  end.

(** *** The preparation loop of [Install] *)

Definition with_default_timeout `{ChartDecls} (c : Chart) : Chart :=
  if WaitTimeout c =? 0 then
    {| Title := Title c; Location := Location c; ValueOverrides := ValueOverrides c;
       WaitUntilDeployment := WaitUntilDeployment c;
       WaitUntilHelmSaysItsReady := WaitUntilHelmSaysItsReady c;
       WaitTimeout := DefaultDeploymentTimeout;
       DeploymentHealthIndication := DeploymentHealthIndication c;
       DependencyList := DependencyList c |}
  else c.

(** Modelled from the spec: the view of a chart as a graph object. Its
    name is [Name]; its dependencies are the names that the titles in
    [DependencyList] stand for (section 3, invariant 3). *)
Definition graph_object `{ChartDecls} (c : Chart) : dag.GraphObject :=
  {| dag.go_Name := Name c; dag.go_Dependencies := map sanitize (DependencyList c) |}.

Inductive prepared :=
| Rejected (charts : list Chart) (e : error)
| Prepared (charts : list Chart) (cmap : gmap string nat) (objs : list dag.GraphObject).

(** [for i := range charts], with [todo] turns left. The writes go to
    [charts[i]], the caller's slice. *)
Fixpoint prepare `{ChartDecls} (todo i : nat) (charts : list Chart)
    (cmap : gmap string nat) (objs : list dag.GraphObject) : prepared :=
  match todo with
  | O => Prepared charts cmap objs
  | S todo' =>
      match charts !! i with
      | None => Prepared charts cmap objs
      | Some c =>
          let charts1 := <[i := with_default_timeout c]> charts in
          let c1 := with_default_timeout c in
          if String.eqb (Location c1) "" then
            Rejected charts1
              ("empty location for chart: " +:+ Title c1 +:+ " (offset " +:+ pretty i +:+ ")")
          else
            match DeploymentHealthIndication c1 with
            | OtherIndication raw =>
                Rejected charts1
                  ("unknown value for DeploymentHealthIndication: " +:+ pretty raw)
            | _ =>
                prepare todo' (S i) charts1 (<[Name c1 := i]> cmap)
                        (objs ++ [graph_object c1])%list
            end
      end
  end.

(** *** [Install] *)

(** What the caller has after [Install] returned: the two results, its
    chart slice, and the effects. *)
Record returns := {
  ret_rmap : option (gmap string string);
  ret_err : option error;
  ret_charts : list Chart;
  ret_history : list Effect
}.

Definition apply_options (opts : list InstallOption) : options :=
  foldl (fun ops opt => opt ops)
        {| k8sNamespace := ""; tillerNamespace := ""; installCallback := None |} opts.

Definition with_default_namespace (ops : options) : options :=
  if String.eqb (k8sNamespace ops) "" then
    {| k8sNamespace := DefaultK8sNamespace; tillerNamespace := tillerNamespace ops;
       installCallback := installCallback ops |}
  else ops.

(** [Install] up to its call of [og.Walk]: either it has returned, or
    it is about to walk the graph [og] with the visitor [af]. *)
Inductive setup :=
| Refused (r : returns)
| Walking (ops : options) (charts : list Chart) (cmap : gmap string nat)
          (og : gmap string (list string)) (w : World).

Definition Install_setup `{ChartDecls} (h : list Effect) (charts : list Chart)
    (opts : list InstallOption) : setup :=
  let ops := apply_options opts in
  if (length charts =? 0)%nat then
    Refused {| ret_rmap := None; ret_err := Some "no charts were supplied";
               ret_charts := charts; ret_history := h |}
  else
    let ops := with_default_namespace ops in
    match prepare (length charts) 0 charts ∅ [] with
    | Rejected charts1 e =>
        Refused {| ret_rmap := None; ret_err := Some e;
                   ret_charts := charts1; ret_history := h |}
    | Prepared charts1 cmap objs =>
        match dag.Build objs with
        | inr e =>
            Refused {| ret_rmap := None; ret_err := Wrap (Some e) "error building graph";
                       ret_charts := charts1; ret_history := GraphBuilt :: h |}
        | inl og =>
            Walking ops charts1 cmap og
                    {| history := WalkStarted :: GraphBuilt :: h; rmap := ∅ |}
        end
    end.

(** [Install(ctx, charts, opts...)] along the run [evs] of the walk,
    with [turns] bounding the turns of each callback loop. [None]: along
    this run, within these turns, [Install] does not return. *)
Definition Install `{ChartDecls} (m : Manager) (turns : nat) (evs : list dag.event)
    (h : list Effect) (charts : list Chart) (opts : list InstallOption) : option returns :=
  match Install_setup h charts opts with
  | Refused r => Some r
  | Walking ops charts1 cmap og w =>
      match dag.Walk og (af m ops charts1 cmap turns) w evs with
      | None => None
      | Some (Some e, w') =>
          Some {| ret_rmap := None; ret_err := Wrap (Some e) "error running installs";
                  ret_charts := charts1; ret_history := history w' |}
      | Some (None, w') =>
          Some {| ret_rmap := Some (rmap w'); ret_err := None;
                  ret_charts := charts1; ret_history := history w' |}
      end
  end.

(** *** What the properties speak of *)

(** The replicas one tick asks for. *)
Definition needed (c : Chart) (replicas : Z) : Z :=
  match DeploymentHealthIndication c with
  | AllPodsHealthy => replicas
  | _ => 1
  end.

(** The readiness rule in the words of the spec (section 4.5): the
    current replica set of the deployment reports at least one ready
    replica, or, for [AllPodsHealthy], at least the declared count. *)
Definition reports_ready (m : Manager) (c : Chart) (ns : string) (h : list Effect) : Prop :=
  exists d rs,
    Deployments_Get m h ns (WaitUntilDeployment c) = (d, None) /\
    GetNewReplicaSet m (DeploymentFetched ns (WaitUntilDeployment c) :: h) d = (Some rs, None) /\
    match DeploymentHealthIndication c with
    | AllPodsHealthy => exists replicas, Replicas d = Some replicas /\ replicas <= ReadyReplicas rs
    | _ => 1 <= ReadyReplicas rs
    end.

(** What one tick of the poll declares. *)
Definition declares_ready (m : Manager) (c : Chart) (ns : string) (h : list Effect) : bool :=
  fst (fst (poll_condition m c ns h)).

(** A chart as [Install] may leave it. *)
Definition touched `{ChartDecls} (c c' : Chart) : Prop := c' = c \/ c' = with_default_timeout c.

Definition prepared_charts (p : prepared) : list Chart :=
  match p with
  | Rejected charts _ => charts
  | Prepared charts _ _ => charts
  end.

Definition setup_charts (s : setup) : list Chart :=
  match s with
  | Refused r => ret_charts r
  | Walking _ charts _ _ _ => charts
  end.

(** All that [Install] may change in a chart: the fields other than
    [WaitTimeout] are the caller's, and a [WaitTimeout] that differs was
    zero and is now the default. *)
Definition same_but_timeout `{ChartDecls} (c c' : Chart) : Prop :=
  Title c' = Title c /\ Location c' = Location c /\
  ValueOverrides c' = ValueOverrides c /\
  WaitUntilDeployment c' = WaitUntilDeployment c /\
  WaitUntilHelmSaysItsReady c' = WaitUntilHelmSaysItsReady c /\
  DeploymentHealthIndication c' = DeploymentHealthIndication c /\
  DependencyList c' = DependencyList c /\
  (WaitTimeout c' = WaitTimeout c
   \/ (WaitTimeout c = 0 /\ WaitTimeout c' = DefaultDeploymentTimeout)).

End Metahelm.

(** ** [Manager.Upgrade] *)

Module Upgrading.
Import Metahelm.

(** Modelled from the spec: the upgrade entry point of sections 4.6 and
    6, whose Go source is not among the sources (its tests are). The
    installer's releases are a map from release name to revision, and an
    upgrade operation raises the revision of an existing release.
    [Upgrade] first looks for a chart without an entry in the release
    map and fails with [ErrMissingRelease] on the first one; otherwise it
    prepares the charts and builds the graph as [Install] does, and walks
    it with a visitor that upgrades the release recorded for the chart. *)
Definition ErrMissingRelease (title : string) : error :=
  "no release for chart: " +:+ title.

Record Helm := {
  releases : gmap string nat;
  (** the upgrade operations performed, newest first: release and namespace *)
  upgraded : list (string * string)
}.

Definition upgrade (release ns : string) (w : Helm) : option error * Helm :=
  match releases w !! release with
  | None => (Some ("release not found: " +:+ release), w)
  | Some rev =>
      (None, {| releases := <[release := S rev]> (releases w);
                upgraded := (release, ns) :: upgraded w |})
  end.

Definition missing_release (release_map : gmap string string) (charts : list Chart)
    : option Chart :=
  List.find (fun c => bool_decide (release_map !! Title c = None)) charts.

Definition upgrade_visitor (release_map : gmap string string) (ops : options)
    (charts : list Chart) (cmap : gmap string nat) (obj : string) (w : Helm)
    : dag.visit Helm :=
  match cmap !! obj ≫= (charts !!.) with
  | None => dag.Unfinished
  | Some c =>
      match release_map !! Title c with
      | None => dag.Visited (Some (ErrMissingRelease (Title c))) w
      | Some release =>
          let '(err, w') := upgrade release (k8sNamespace ops) w in
          dag.Visited err w'
      end
  end.

(** Modelled from the spec: [Upgrade(ctx, release_map, charts, options)]
    of section 6, failing fast on a chart without a release. *)
Definition Upgrade `{ChartDecls} (evs : list dag.event) (w : Helm)
    (release_map : gmap string string) (charts : list Chart)
    (opts : list InstallOption) : option (option error * Helm) :=
  match missing_release release_map charts with
  | Some c => Some (Some (ErrMissingRelease (Title c)), w)
  | None =>
      match Install_setup [] charts opts with
      | Refused r => Some (ret_err r, w)
      | Walking ops charts1 cmap og _ =>
          dag.Walk og (upgrade_visitor release_map ops charts1 cmap) w evs
      end
  end.

End Upgrading.

(** ** The release-name sanitizer *)

Module Sanitizer.

(** Modelled from the spec: [ReleaseName] of section 6, whose Go source
    is not among the sources (its test and its caller [buildReleaseMap]
    are). A string is the sequence of its code points. The steps are
    those of the spec, in its order: lowercase, replace what is outside
    [a-z0-9-] by a dash, collapse runs of dashes, strip the dashes at
    both ends, substitute the fallback when nothing is left of a
    non-empty input, truncate to 53 code points. The lowercase mapping of
    Unicode is left open as [lower]; the fallback is a short hash prefix,
    eight hexadecimal digits of a 32-bit hash of the input. *)
Definition rune := Z.

Definition dash : rune := 45.

Definition allowed (r : rune) : bool :=
  ((97 <=? r) && (r <=? 122)) || ((48 <=? r) && (r <=? 57)) || (r =? dash).

Definition replace_rune (r : rune) : rune := if allowed r then r else dash.

Fixpoint collapse (s : list rune) : list rune :=
  match s with
  | a :: rest =>
      match rest with
      | b :: _ => if (a =? dash) && (b =? dash) then collapse rest else a :: collapse rest
      | [] => [a]
      end
  | [] => []
  end.

Fixpoint strip_leading (s : list rune) : list rune :=
  match s with
  | a :: rest => if a =? dash then strip_leading rest else s
  | [] => []
  end.

Definition strip (s : list rune) : list rune :=
  rev (strip_leading (rev (strip_leading s))).

Definition hex_digit (d : Z) : rune := if d <? 10 then 48 + d else 87 + d.

Definition hash32 (s : list rune) : Z :=
  fold_left (fun h r => (Z.lxor h r * 16777619) mod 2 ^ 32) s 2166136261.

Definition hash_prefix (s : list rune) : list rune :=
  map (fun k => hex_digit ((hash32 s / 16 ^ k) mod 16)) [7; 6; 5; 4; 3; 2; 1; 0].

Definition MaxReleaseNameLength : nat := 53.

Definition sanitized (lower : rune -> rune) (input : list rune) : list rune :=
  strip (collapse (map replace_rune (map lower input))).

(** Modelled from the spec: [release_name(input)] of section 6. *)
Definition ReleaseName (lower : rune -> rune) (input : list rune) : list rune :=
  let clean := sanitized lower input in
  let name :=
    match clean, input with
    | [], _ :: _ => hash_prefix input
    | _, _ => clean
    end in
  firstn MaxReleaseNameLength name.

(** The lowercase mapping on the ASCII letters. *)
Definition ascii_lower (r : rune) : rune :=
  if (65 <=? r) && (r <=? 90) then r + 32 else r.

(** The code points of an ASCII string. *)
Fixpoint runes (s : string) : list rune :=
  match s with
  | EmptyString => []
  | String a rest => Z.of_N (Ascii.N_of_ascii a) :: runes rest
  end.

(** A name all of whose code points are in [a-z0-9-]. *)
Definition valid (s : list rune) : Prop := Forall (fun r => allowed r = true) s.

End Sanitizer.

(** ** The command line ([cmd/install.go]) *)

Module Cmd.
Import Metahelm.

(** [ChartDefinition], a chart of the YAML input. The field
    [WaitForHelm] is the one the later revision of the file adds; the
    functions of the earlier revision do not read it. *)
Record ChartDefinition := {
  cd_Name : string;
  cd_Path : string;
  cd_ValuesPath : string;
  cd_PrimaryDeployment : string;
  cd_Timeout : string;
  cd_WaitForAllPods : bool;
  cd_WaitForHelm : bool;
  cd_Dependencies : list string
}.

(** What the file takes from the standard library and from the YAML
    package: [os.Stat] (its error), [ioutil.ReadFile],
    [time.ParseDuration], [yaml.Unmarshal] into a slice of chart
    definitions, [path.Clean] and [filepath.Dir]. *)
Record System := {
  os_Stat : string -> option error;
  ioutil_ReadFile : string -> list Byte.byte + error;
  time_ParseDuration : string -> Z + error;
  yaml_Unmarshal : list Byte.byte -> list ChartDefinition + error;
  path_Clean : string -> string;
  filepath_Dir : string -> string
}.

(** [path.Join]: the elements from the first non-empty one on, joined
    by slashes and cleaned; the empty string when there is none. *)
Fixpoint path_Join (sys : System) (elem : list string) : string :=
  match elem with
  | [] => ""
  | e :: rest =>
      if String.eqb e "" then path_Join sys rest
      else path_Clean sys (String.concat "/" elem)
  end.

(** The loop over [c.Dependencies] of [validateChart]: the offset of the
    first empty string. *)
Fixpoint empty_dependency (i : nat) (deps : list string) : option nat :=
  match deps with
  | [] => None
  | d :: rest =>
      if (String.length d =? 0)%nat then Some i else empty_dependency (S i) rest
  end.

Definition validateChart (sys : System) (c : ChartDefinition) : option error :=
  if String.eqb (cd_Name c) "" then Some "name is empty"
  else if String.eqb (cd_Path c) "" then Some "path is empty"
  else
    match os_Stat sys (cd_Path c) with
    | Some e => Wrap (Some e) "error with path"
    | None =>
        match (if String.eqb (cd_ValuesPath c) "" then None
               else os_Stat sys (cd_ValuesPath c)) with
        | Some e => Wrap (Some e) "error with values_path"
        | None =>
            match (if String.eqb (cd_Timeout c) "" then None
                   else match time_ParseDuration sys (cd_Timeout c) with
                        | inr e => Some e
                        | inl _ => None
                        end) with
            | Some e => Wrap (Some e) "error with timeout"
            | None =>
                match empty_dependency 0 (cd_Dependencies c) with
                | Some i => Some ("empty string in dependencies at offset " +:+ pretty i)
                | None => None
                end
            end
        end
    end.

Definition expandFilePath (sys : System) (filePath baseDir : string) : string :=
  if negb (String.prefix "/" filePath) then path_Join sys [baseDir; filePath]
  else filePath.

(** [expandChartFilesPath] writes the two paths of every element of the
    slice; the result is the slice after the loop. *)
Definition expandChartFilesPath (sys : System) (charts : list ChartDefinition)
    (baseDir : string) : list ChartDefinition :=
  map (fun c =>
         {| cd_Name := cd_Name c;
            cd_Path := expandFilePath sys (cd_Path c) baseDir;
            cd_ValuesPath := expandFilePath sys (cd_ValuesPath c) baseDir;
            cd_PrimaryDeployment := cd_PrimaryDeployment c;
            cd_Timeout := cd_Timeout c;
            cd_WaitForAllPods := cd_WaitForAllPods c;
            cd_WaitForHelm := cd_WaitForHelm c;
            cd_Dependencies := cd_Dependencies c |}) charts.

(** The validation loop of [readAndValidateFile]. *)
Fixpoint validate_from (sys : System) (i : nat) (charts : list ChartDefinition)
    : option error :=
  match charts with
  | [] => None
  | c :: rest =>
      match validateChart sys c with
      | Some e => Wrap (Some e) ("error validating chart at offset " +:+ pretty i)
      | None => validate_from sys (S i) rest
      end
  end.

Definition readAndValidateFile (sys : System) (f : string) (validate : bool)
    : list ChartDefinition + error :=
  match ioutil_ReadFile sys f with
  | inr e => inr ("error reading file: " +:+ e)
  | inl b =>
      match yaml_Unmarshal sys b with
      | inr e => inr ("error unmarshaling YAML: " +:+ e)
      | inl charts =>
          if (length charts =? 0)%nat then inr "file is empty"
          else
            let baseDir := filepath_Dir sys f in
            let charts := expandChartFilesPath sys charts baseDir in
            if validate then
              match validate_from sys 0 charts with
              | Some e => inr e
              | None => inl charts
              end
            else inl charts
      end
  end.

(** [chartDefToChart] of [cmd/install.go]: the timeout is parsed inside
    the branch of a non-empty [PrimaryDeployment]. *)
Definition chartDefToChart (sys : System) (cd : ChartDefinition) : Chart + error :=
  match (if String.eqb (cd_ValuesPath cd) "" then inl []
         else ioutil_ReadFile sys (cd_ValuesPath cd)) with
  | inr e => inr ("error reading values file: " +:+ e)
  | inl b =>
      let result (wt : Z) (dhi : HealthIndication) : Chart :=
        {| Title := cd_Name cd; Location := cd_Path cd; ValueOverrides := b;
           WaitUntilDeployment := cd_PrimaryDeployment cd;
           WaitUntilHelmSaysItsReady := false;
           WaitTimeout := wt; DeploymentHealthIndication := dhi;
           DependencyList := cd_Dependencies cd |} in
      if negb (String.eqb (cd_PrimaryDeployment cd) "") then
        let dhi := if cd_WaitForAllPods cd then AllPodsHealthy else AtLeastOnePodHealthy in
        if negb (String.eqb (cd_Timeout cd) "") then
          match time_ParseDuration sys (cd_Timeout cd) with
          | inr e => inr ("error parsing timeout: " +:+ e)
          | inl wt => inl (result wt dhi)
          end
        else inl (result 0 dhi)
      else inl (result 0 IgnorePodHealth)
  end.

(** [chartDefToChart] of the later revision: the timeout is parsed for
    every chart, and [WaitForHelm] overrides the primary deployment. *)
Definition chartDefToChart_helm (sys : System) (cd : ChartDefinition) : Chart + error :=
  match (if String.eqb (cd_ValuesPath cd) "" then inl []
         else ioutil_ReadFile sys (cd_ValuesPath cd)) with
  | inr e => inr ("error reading values file: " +:+ e)
  | inl b =>
      let dhi :=
        if negb (String.eqb (cd_PrimaryDeployment cd) "") then
          if cd_WaitForAllPods cd then AllPodsHealthy else AtLeastOnePodHealthy
        else IgnorePodHealth in
      match (if negb (String.eqb (cd_Timeout cd) "")
             then time_ParseDuration sys (cd_Timeout cd) else inl 0) with
      | inr e => inr ("error parsing timeout: " +:+ e)
      | inl wt =>
          let primary := if cd_WaitForHelm cd then "" else cd_PrimaryDeployment cd in
          let dhi := if cd_WaitForHelm cd then IgnorePodHealth else dhi in
          inl {| Title := cd_Name cd; Location := cd_Path cd; ValueOverrides := b;
                 WaitUntilDeployment := primary;
                 WaitUntilHelmSaysItsReady := cd_WaitForHelm cd;
                 WaitTimeout := wt; DeploymentHealthIndication := dhi;
                 DependencyList := cd_Dependencies cd |}
      end
  end.

(** [cd2c], over either conversion. *)
Fixpoint cd2c_from (convert : ChartDefinition -> Chart + error)
    (cs : list Chart) (cds : list ChartDefinition) : list Chart + error :=
  match cds with
  | [] => inl cs
  | cd :: rest =>
      match convert cd with
      | inr e => inr e
      | inl c => cd2c_from convert (cs ++ [c])%list rest
      end
  end.

Definition cd2c (sys : System) (cds : list ChartDefinition) : list Chart + error :=
  cd2c_from (chartDefToChart sys) [] cds.

Definition cd2c_helm (sys : System) (cds : list ChartDefinition) : list Chart + error :=
  cd2c_from (chartDefToChart_helm sys) [] cds.

Record installCfg := {
  upgrade : bool;
  tillerNS : string;
  tillerTimeout : Z;
  k8sCtx : string;
  k8sNS : string;
  releaseNamePrefix : string
}.



(** [buildReleaseMap] of the later revision, over the release-name
    function of the package, which it calls on prefix and title. *)
Definition buildReleaseMap (ReleaseName : string -> string) (instConfig : installCfg)
    (cs : list Chart) : gmap string string :=
  foldl (fun rm c =>
           match rm !! Title c with
           | Some _ => rm
           | None => <[Title c := ReleaseName (releaseNamePrefix instConfig +:+ Title c)]> rm
           end) ∅ cs.

End Cmd.

(** ** Notions for the properties of the aggregator *)

Module FailureNotions.
Import Failures.

(** The containers whose logs the log loop fetches: not ready, with a
    last termination whose exit code is not zero. *)
Definition wants_logs (cs : ContainerStatus) : bool :=
  negb (cs_Ready cs)
  && match cs_Terminated cs with
     | Some code => negb (code =? 0)
     | None => false
     end.

(** A failed-pod record that carries what the pod reports. *)
Definition record_of (pod : Pod) (fp : FailedPod) : Prop :=
  fp_Name fp = pod_Name pod /\ fp_Phase fp = pod_Phase pod /\
  fp_Message fp = pod_Message pod /\ fp_Reason fp = pod_Reason pod /\
  fp_Conditions fp = pod_Conditions pod /\
  fp_ContainerStatuses fp = pod_ContainerStatuses pod.

(** The zero value [ChartError{}]: no pods and three nil maps. *)
Definition zero_ChartError : ChartError :=
  {| FailedPods := []; FailedDaemonSets := None; FailedDeployments := None;
     FailedJobs := None |}.

(** A frame that differs from another at most in the map behind
    [FailedDeployments]. *)
Definition kept (f f' : frame) : Prop :=
  f_ce f' = f_ce f
  /\ forall l : loc, FailedDeployments (f_ce f) <> Some l -> f_store f' !! l = f_store f !! l.

End FailureNotions.

(** ** Notions for the properties of [Install] *)

Module InstallNotions.
Import Metahelm.

(** A chart the preparation loop of [Install] lets through: its
    location is not empty and its health indication is one of the three
    named ones. *)
Definition acceptable (c : Chart) : bool :=
  negb (String.eqb (Location c) "")
  && match DeploymentHealthIndication c with
     | OtherIndication _ => false
     | _ => true
     end.

(** The effects of the callback loop. *)
Definition callback_effect (e : Effect) : Prop :=
  match e with
  | CallbackInvoked _ | Slept _ => True
  | _ => False
  end.

End InstallNotions.

(** ** Inputs for the examples of the command line *)

Module CmdCases.
Import Metahelm Cmd.

(** A system in which every path exists, every file is empty, a
    duration parses to ninety seconds unless it is the string "soon",
    the input file holds the given definitions, cleaning a path turns
    the empty one and "./" into "." and leaves the others, and the
    directory of every file is the current one. *)
Definition clean (s : string) : string :=
  if String.eqb s "" || String.eqb s "./" then "." else s.

Definition system (cds : list ChartDefinition) : System :=
  {| os_Stat := fun _ => None;
     ioutil_ReadFile := fun _ => inl [];
     time_ParseDuration := fun d =>
       if String.eqb d "soon" then inr "time: invalid duration soon"
       else inl (90 * 1000000000);
     yaml_Unmarshal := fun _ => inl cds;
     path_Clean := clean;
     filepath_Dir := fun _ => "." |}.

Definition definition (name primary timeout : string) (all helm : bool)
    (deps : list string) : ChartDefinition :=
  {| cd_Name := name; cd_Path := "charts/" +:+ name; cd_ValuesPath := "";
     cd_PrimaryDeployment := primary; cd_Timeout := timeout;
     cd_WaitForAllPods := all; cd_WaitForHelm := helm; cd_Dependencies := deps |}.

Definition test_definitions : list ChartDefinition :=
  [ definition "toplevel" "toplevel" "10m" true false ["someservice"; "redis"];
    definition "someservice" "someservice" "" false false [];
    definition "redis" "" "soon" false false [] ].

Definition config (ns : string) : installCfg :=
  {| upgrade := false; tillerNS := "kube-system"; tillerTimeout := 90 * 1000000000;
     k8sCtx := ""; k8sNS := ns; releaseNamePrefix := "pre-" |}.

End CmdCases.

(** ** Inputs for the examples *)

Module FailureCases.
Import Failures.

Definition one_pod (phase : string) : Pod :=
  {| pod_Name := "pod-0"; pod_Phase := phase; pod_Message := ""; pod_Reason := "";
     pod_Conditions := []; pod_ContainerStatuses := [] |}.

(** A cluster in which every workload exists and selects its pods by one
    label, and every pod listing returns one pod in the given phase with
    no container status. *)
Definition cluster (phase : string) : K8sClient :=
  {| Deployments_Get := fun _ name =>
       (Some {| d_Replicas := Some 1; d_Selector := Some [("app", name)] |}, None);
     GetNewReplicaSet := fun _ => (Some tt, None);
     Jobs_Get := fun _ name => ({| wl_Selector := Some [("job-name", name)] |}, None);
     DaemonSets_Get := fun _ name => ({| wl_Selector := Some [("name", name)] |}, None);
     Pods_List := fun _ _ => (Some [one_pod phase], None);
     Pods_GetLogs := fun _ _ _ => LogBytes [] |}.

Definition failed_of (p : Pod) : FailedPod :=
  {| fp_Name := pod_Name p; fp_Phase := pod_Phase p; fp_Message := pod_Message p;
     fp_Reason := pod_Reason p; fp_Conditions := pod_Conditions p;
     fp_ContainerStatuses := pod_ContainerStatuses p; fp_Logs := ∅ |}.

Definition release_of (kind : string) : Release :=
  {| rls_Namespace := "default";
     rls_Manifests := [ {| m_Name := "web"; m_Kind := kind |} ] |}.

End FailureCases.

Module InstallCases.
Import Metahelm.

(** The chart declarations taken for the examples: the name of a chart
    is its title, the default timeout is ten minutes. *)
Definition decls : ChartDecls :=
  {| sanitize := fun s => s; DefaultDeploymentTimeout := 600 * 1000000000 |}.

Definition chart (title : string) (deps : list string) (hi : HealthIndication) : Chart :=
  {| Title := title; Location := "/foo"; ValueOverrides := [];
     WaitUntilDeployment := title; WaitUntilHelmSaysItsReady := false;
     WaitTimeout := 0; DeploymentHealthIndication := hi; DependencyList := deps |}.

(** The four charts of the tests. *)
Definition testCharts : list Chart :=
  [ chart "toplevel" ["someservice"; "anotherthing"; "redis"] IgnorePodHealth;
    chart "someservice" [] IgnorePodHealth;
    chart "anotherthing" ["redis"] AllPodsHealthy;
    chart "redis" [] IgnorePodHealth ].

(** Clients for which every install succeeds and every deployment has
    [replicas] declared replicas and a new replica set with [ready] ready
    ones. *)
Definition clients (replicas : option Z) (ready : Z) : Manager :=
  {| InstallRelease := fun _ chstr _ _ => inl ("release-" +:+ chstr);
     Deployments_Get := fun _ _ name => ({| dep_Name := name; Replicas := replicas |}, None);
     GetNewReplicaSet := fun _ _ => (Some {| ReadyReplicas := ready |}, None) |}.

Definition always_continue : InstallCallback := fun _ _ => Continue.

(** A run of the walk over [testCharts]. *)
Definition test_run : list dag.event :=
  [ dag.Call "redis"; dag.Call "someservice"; dag.Ret "redis" None;
    dag.Call "anotherthing"; dag.Ret "someservice" None;
    dag.Ret "anotherthing" None; dag.Call "toplevel"; dag.Ret "toplevel" None ].

End InstallCases.

Module UpgradeCases.
Import Metahelm InstallCases Upgrading.

(** The release map of the tests, without the entry of [toplevel]. *)
Definition known_releases : gmap string string :=
  delete "toplevel"
    (list_to_map [ ("toplevel", "release-toplevel-0"); ("someservice", "release-someservice-1");
                   ("anotherthing", "release-anotherthing-2"); ("redis", "release-redis-3") ]).

Definition installed : Helm :=
  {| releases := list_to_map [ ("release-toplevel-0", 1%nat); ("release-someservice-1", 1%nat);
                               ("release-anotherthing-2", 1%nat); ("release-redis-3", 1%nat) ];
     upgraded := [] |}.

End UpgradeCases.

(** * Properties *)

(** ** The failure aggregator *)

Section FailureAggregator.
Import Failures FailureCases.

(** The phase test holds of every phase: a phase cannot be both
    [Running] and [Succeeded]. *)
Lemma phase_test_always (phase : string) : phase_test phase = true.
Proof.
  unfold phase_test.
  destruct (String.eqb_spec phase PodRunning) as [-> | _]; reflexivity.
Qed.

(** When the log fetches succeed, the pod loop appends one record for
    every pod it is given, whatever its phase. *)
Lemma collect_pods_all kc ns pods plopts acc fps plopts' :
  collect_pods kc ns pods plopts acc = inr (fps, plopts') ->
  map fp_Name fps = (map fp_Name acc ++ map pod_Name pods)%list.
Proof.
  revert plopts acc.
  induction pods as [| pod rest IH]; intros plopts acc H; simpl in H.
  - inversion H; subst. now rewrite app_nil_r.
  - rewrite phase_test_always in H.
    destruct (collect_logs kc ns (pod_Name pod) (pod_ContainerStatuses pod) plopts ∅)
      as [e | [logs plopts1]]; [discriminate |].
    apply IH in H. rewrite H, map_app. simpl. now rewrite <- app_assoc.
Qed.

(** For a [Job] or [DaemonSet] manifest the loop body never reaches the
    pod listing: it goes on with the frame it was given, or leaves. *)
Lemma release_body_job_daemonset kc ns f m :
  m_Kind m = "Job" \/ m_Kind m = "DaemonSet" ->
  release_body kc ns f m = Next f \/ exists o, release_body kc ns f m = Leave o f.
Proof.
  intros Hk. unfold release_body, select.
  destruct Hk as [Hk | Hk]; rewrite Hk; simpl.
  - destruct (Jobs_Get kc ns (m_Name m)) as [j [e |]]; [right; eauto |].
    destruct (wl_Selector j); [left | right]; eauto.
  - destruct (DaemonSets_Get kc ns (m_Name m)) as [j [e |]]; [right; eauto |].
    destruct (wl_Selector j); [left | right]; eauto.
Qed.

(** A bare [Pod] manifest has no selector, so the body skips it. *)
Lemma release_body_pod kc ns f m :
  m_Kind m = "Pod" -> release_body kc ns f m = Next f.
Proof. intros Hk. unfold release_body, select. now rewrite Hk. Qed.

(** The struct value of the caller is the one it had before the call. *)
Lemma caller_view_FailedPods ce res :
  FailedPods (fst (caller_view ce res)) = FailedPods ce.
Proof. reflexivity. Qed.

(** C4. Both collectors record a pod whose phase is [Running]: in a
    cluster whose only pod is running, [PopulateFromDeployment] and
    [PopulateFromRelease] each return without error and leave that pod
    in the failed-pod list of the deployment. *)
Theorem running_pod_is_recorded :
  let '(ce, h) := NewChartError ∅ in
  let by_deployment := PopulateFromDeployment ce h "default" "web" (cluster PodRunning) 0 in
  let by_release :=
    PopulateFromRelease ce h (Some (release_of "Deployment")) (cluster PodRunning) 0 in
  (fst by_deployment = Returned None /\
   deref (snd (caller_view ce by_deployment)) (FailedDeployments ce) !! "web"
   = Some [failed_of (one_pod PodRunning)]) /\
  (fst by_release = Returned None /\
   deref (snd (caller_view ce by_release)) (FailedDeployments ce) !! "web"
   = Some [failed_of (one_pod PodRunning)]).
Proof. vm_compute. repeat split. Qed.

(** C5. For a release whose only manifest is a [Job] (or a [DaemonSet])
    selecting a pod in phase [Failed], [PopulateFromRelease] returns
    without error and [FailedJobs] (or [FailedDaemonSets]) has no entry
    for the workload. *)
Theorem job_and_daemonset_are_skipped :
  let '(ce, h) := NewChartError ∅ in
  let job := PopulateFromRelease ce h (Some (release_of "Job")) (cluster "Failed") 0 in
  let ds := PopulateFromRelease ce h (Some (release_of "DaemonSet")) (cluster "Failed") 0 in
  (fst job = Returned None /\
   deref (snd (caller_view ce job)) (FailedJobs ce) !! "web" = None) /\
  (fst ds = Returned None /\
   deref (snd (caller_view ce ds)) (FailedDaemonSets ce) !! "web" = None).
Proof. vm_compute. repeat split. Qed.

(** C6. For a release whose only manifest is a bare [Pod], in a cluster
    whose pod is in phase [Failed], [PopulateFromRelease] returns without
    error and the caller's [FailedPods] is still empty. *)
Theorem bare_pod_not_visible :
  let '(ce, h) := NewChartError ∅ in
  let res := PopulateFromRelease ce h (Some (release_of "Pod")) (cluster "Failed") 0 in
  fst res = Returned None /\
  FailedPods (fst (caller_view ce res)) = [] /\
  FailedPods (f_ce (snd res)) = [].
Proof. vm_compute. repeat split. Qed.

(** Had the body reached the second [switch] for a [Pod] manifest, the
    assignment would have gone to the callee's copy only. *)
Lemma record_failed_pod f m fps plopts :
  m_Kind m = "Pod" ->
  exists f', record_failed f m fps plopts = Next f' /\
             FailedPods (f_ce f') = fps /\ f_store f' = f_store f.
Proof. intros Hk. unfold record_failed. rewrite Hk. simpl. eauto. Qed.

End FailureAggregator.

(** ** [Install] *)

Section InstallFacts.
Import Metahelm InstallCases.
Context `{ChartDecls}.

(** C10. [Install] with no charts returns a nil release map and the
    error "no charts were supplied", and nothing has happened: no graph
    is built, no client and no callback is called. *)
Theorem Install_no_charts (m : Manager) (turns : nat) (evs : list dag.event)
    (h : list Effect) (opts : list InstallOption) :
  Install m turns evs h [] opts
  = Some {| ret_rmap := None; ret_err := Some "no charts were supplied";
            ret_charts := []; ret_history := h |}.
Proof. reflexivity. Qed.

(** *** The callback loop *)

(** With a callback set, the loop is never left by its [break]: it
    returns an error or is still turning. *)
Lemma callback_loop_never_breaks turns cb c h :
  match callback_loop turns (Some cb) c h with
  | Broke _ => False
  | _ => True
  end.
Proof.
  revert h. induction turns as [| turns IH]; intros h; simpl; [exact I |].
  destruct (cb h c =? Continue); [apply IH |].
  destruct (cb h c =? Wait); [apply IH |].
  destruct (cb h c =? Abort); exact I.
Qed.

(** Hence, with a callback set, the visitor never returns success. *)
Lemma af_with_callback_never_succeeds m ops charts cmap turns obj w cb w' :
  installCallback ops = Some cb ->
  af m ops charts cmap turns obj w <> dag.Visited None w'.
Proof.
  intros Hcb. unfold af. destruct (cmap !! obj ≫= (charts !!.)) as [c |]; [| discriminate].
  rewrite Hcb. pose proof (callback_loop_never_breaks turns cb c (history w)) as Hl.
  destruct (callback_loop turns (Some cb) c (history w)); [contradiction | |]; discriminate.
Qed.

Lemma repeat_shift {A} (x : A) n l :
  (repeat x n ++ x :: l = x :: repeat x n ++ l)%list.
Proof. induction n as [| n IH]; simpl; [reflexivity | now rewrite IH]. Qed.

Lemma callback_loop_continue turns c h :
  callback_loop turns (Some always_continue) c h
  = Spins (repeat (CallbackInvoked c) turns ++ h)%list.
Proof.
  revert h. induction turns as [| turns IH]; intros h; simpl; [reflexivity |].
  rewrite IH. now rewrite repeat_shift.
Qed.

(** C2. With a callback that answers [Continue], the loop of the visitor
    of [redis] is still turning after any number of turns, having called
    the callback once per turn and nothing else: the visitor has not
    returned and [InstallRelease] has not been called. *)
Theorem continue_keeps_calling (turns : nat) :
  let ops := apply_options [WithInstallCallback (Some always_continue)] in
  let redis := chart "redis" [] IgnorePodHealth in
  callback_loop turns (installCallback ops) redis []
  = Spins (repeat (CallbackInvoked redis) turns)
  /\ af (clients (Some 1) 1) ops [redis] {[ "redis" := 0%nat ]} turns "redis"
        {| history := []; rmap := ∅ |}
     = dag.Unfinished.
Proof.
  intros ops redis.
  assert (Hloop : callback_loop turns (installCallback ops) redis []
                  = Spins (repeat (CallbackInvoked redis) turns)).
  { unfold ops. simpl. rewrite callback_loop_continue. now rewrite app_nil_r. }
  split; [exact Hloop |].
  unfold af. rewrite lookup_singleton_eq. simpl.
  now rewrite callback_loop_continue.
Qed.

(** *** The readiness poll *)

(** C3, as stated, fails: for a chart with [AtLeastOnePodHealthy] whose
    deployment declares no replica count, the new replica set reports one
    ready replica and the tick does not declare the chart ready. *)
Lemma no_replica_count_not_ready :
  let c := chart "anotherthing" ["redis"] AtLeastOnePodHealthy in
  reports_ready (clients None 1) c "default" []
  /\ declares_ready (clients None 1) c "default" [] = false.
Proof.
  split; [| reflexivity].
  exists {| dep_Name := "anotherthing"; Replicas := None |}, {| ReadyReplicas := 1 |}.
  repeat split. simpl. lia.
Qed.

(** C3, amended. [waitForChart] returns success at once, with no call of
    a client, for a chart with [IgnorePodHealth]; for any other chart a
    tick of the poll declares the chart ready exactly when the deployment
    is fetched without error and declares a replica count, its new
    replica set is found, and that set reports at least one ready replica
    or, for [AllPodsHealthy], at least the declared count. *)
Theorem poll_declares_ready (m : Manager) (c : Chart) (ns : string) (h : list Effect) :
  (DeploymentHealthIndication c = IgnorePodHealth -> waitForChart m c ns h = (None, h))
  /\ (declares_ready m c ns h = true <->
      exists d replicas rs,
        Deployments_Get m h ns (WaitUntilDeployment c) = (d, None) /\
        Replicas d = Some replicas /\
        GetNewReplicaSet m (DeploymentFetched ns (WaitUntilDeployment c) :: h) d
        = (Some rs, None) /\
        needed c replicas <= ReadyReplicas rs).
Proof.
  split.
  - intros Hi. unfold waitForChart. now rewrite Hi.
  - unfold declares_ready, poll_condition.
    destruct (Deployments_Get m h ns (WaitUntilDeployment c)) as [d err].
    split.
    + intros Hr. destruct err as [e |]; [discriminate |].
      destruct (Replicas d) as [replicas |] eqn:Hd; [| discriminate].
      destruct (GetNewReplicaSet m _ d) as [rs err] eqn:Hrs.
      destruct err as [e |]; [discriminate |].
      destruct rs as [rs |]; [| discriminate].
      exists d, replicas, rs. repeat split; try assumption.
      simpl in Hr. unfold needed. now apply Z.leb_le.
    + intros (d' & replicas & rs & Hget & Hd & Hrs & Hn).
      inversion Hget; subst d' err. rewrite Hd, Hrs. simpl.
      now apply Z.leb_le.
Qed.

Lemma poll_declares_ready_witness :
  waitForChart (clients (Some 1) 1) (chart "redis" [] IgnorePodHealth) "default" []
  = (None, []).
Proof.
  apply (proj1 (poll_declares_ready (clients (Some 1) 1)
                  (chart "redis" [] IgnorePodHealth) "default" [])).
  reflexivity.
Defined.

(** The first tick that declares the chart ready ends the poll with
    success. *)
Lemma waitForChart_first_tick m c ns h h1 :
  DeploymentHealthIndication c <> IgnorePodHealth ->
  poll_condition m c ns (Slept chartWaitPollInterval :: h) = (true, None, h1) ->
  waitForChart m c ns h = (None, h1).
Proof.
  intros Hi Hc. unfold waitForChart, Poll.
  destruct (Z.to_nat (Z.max 1 (WaitTimeout c / chartWaitPollInterval))) as [| n] eqn:Hn;
    [lia |].
  destruct (DeploymentHealthIndication c); try congruence; simpl; now rewrite Hc.
Qed.

(** *** The caller's charts *)

Lemma with_default_timeout_idem c :
  with_default_timeout (with_default_timeout c) = with_default_timeout c.
Proof.
  unfold with_default_timeout.
  destruct (WaitTimeout c =? 0) eqn:Hc; simpl; [| now rewrite Hc].
  now destruct (DefaultDeploymentTimeout =? 0).
Qed.

Lemma touched_trans c1 c2 c3 : touched c1 c2 -> touched c2 c3 -> touched c1 c3.
Proof.
  unfold touched. intros [-> | ->] [-> | ->]; auto.
  rewrite with_default_timeout_idem. auto.
Qed.

Lemma prepare_touched todo : forall i charts cmap objs,
  Forall2 touched charts (prepared_charts (prepare todo i charts cmap objs)).
Proof.
  assert (Hrefl : forall l : list Chart, Forall2 touched l l).
  { intros l. apply Forall_Forall2_diag, Forall_forall. intros x _. now left. }
  induction todo as [| todo IH]; intros i charts cmap objs; simpl; [apply Hrefl |].
  destruct (charts !! i) as [c |] eqn:Hi; [| apply Hrefl].
  assert (Hone : Forall2 touched charts (<[i := with_default_timeout c]> charts)).
  { rewrite <- (list_insert_id charts i c Hi) at 1.
    apply Forall2_insert; [apply Hrefl | now right]. }
  destruct (String.eqb (Location (with_default_timeout c)) ""); [exact Hone |].
  destruct (DeploymentHealthIndication (with_default_timeout c));
    try exact Hone;
    (eapply Forall2_trans; [apply touched_trans | exact Hone | apply IH]).
Qed.

Lemma Install_setup_touched h charts opts :
  Forall2 touched charts (setup_charts (Install_setup h charts opts)).
Proof.
  unfold Install_setup.
  destruct (length charts =? 0)%nat.
  { simpl. apply Forall_Forall2_diag, Forall_forall. intros x _. now left. }
  pose proof (prepare_touched (length charts) 0 charts ∅ []) as Hp.
  destruct (prepare (length charts) 0 charts ∅ []) as [cs e | cs cmap objs]; simpl in *;
    [exact Hp |].
  destruct (dag.Build objs); exact Hp.
Qed.

Lemma Install_ret_charts m turns evs h charts opts r :
  Install m turns evs h charts opts = Some r ->
  ret_charts r = setup_charts (Install_setup h charts opts).
Proof.
  unfold Install.
  destruct (Install_setup h charts opts) as [r0 | ops cs cmap og w]; simpl.
  - now intros [= ->].
  - destruct (dag.Walk og _ w evs) as [[[e |] w'] |]; intros [= <-]; reflexivity.
Qed.

Lemma touched_same_but_timeout c c' : touched c c' -> same_but_timeout c c'.
Proof.
  intros [-> | ->]; unfold same_but_timeout, with_default_timeout.
  - repeat split; auto.
  - destruct (WaitTimeout c =? 0) eqn:Hc; simpl; repeat split; auto.
    right. split; [now apply Z.eqb_eq | reflexivity].
Qed.

(** C9, amended. When [Install] returns, the caller's slice holds as
    many charts as before, each with every field but [WaitTimeout] as the
    caller set it; a [WaitTimeout] that changed was zero and is now
    [DefaultDeploymentTimeout]. *)
Theorem Install_changes_only_zero_timeouts (m : Manager) (turns : nat)
    (evs : list dag.event) (h : list Effect) (charts : list Chart)
    (opts : list InstallOption) (r : returns) :
  Install m turns evs h charts opts = Some r ->
  Forall2 same_but_timeout charts (ret_charts r).
Proof.
  intros Hr. rewrite (Install_ret_charts _ _ _ _ _ _ _ Hr).
  eapply Forall2_impl; [apply Install_setup_touched | apply touched_same_but_timeout].
Qed.

End InstallFacts.

Section InstallExamples.
Import Metahelm InstallCases.

(** C9, as stated, fails: [Install] of the chart [redis], given with a
    zero [WaitTimeout], returns without error and the caller's chart has
    the default timeout. *)
Lemma Install_writes_default_timeout :
  let redis := chart "redis" [] IgnorePodHealth in
  exists r,
    Install (H := decls) (clients (Some 1) 1) 1 [dag.Call "redis"; dag.Ret "redis" None]
            [] [redis] [] = Some r
    /\ ret_err r = None
    /\ WaitTimeout redis = 0
    /\ (WaitTimeout <$> ret_charts r) = [600 * 1000000000]
    /\ ret_charts r <> [redis].
Proof.
  eexists. split; [vm_compute; reflexivity |].
  repeat split. intros Heq. discriminate Heq.
Qed.

Lemma Install_changes_only_zero_timeouts_witness :
  exists r,
    Install (H := decls) (clients (Some 1) 1) 1 test_run [] testCharts [] = Some r
    /\ Forall2 (same_but_timeout (H := decls)) testCharts (ret_charts r).
Proof.
  eexists. split; [vm_compute; reflexivity |].
  apply (Install_changes_only_zero_timeouts (H := decls) (clients (Some 1) 1) 1 test_run
           [] testCharts []).
  vm_compute; reflexivity.
Defined.

End InstallExamples.

(** ** The order of the visits *)

Section WalkOrder.
Import dag.
Context {W : Type}.
Variable g : gmap string (list string).
Variable visitor : string -> W -> visit W.

(** A step adds to the nodes that succeeded at most the node whose
    visitor has just returned success. *)
Lemma walk_step_succeeded st ev st' d :
  walk_step g visitor st ev = Some st' ->
  d ∈ succeeded st' ->
  d ∈ succeeded st \/ ev = Ret d None.
Proof.
  unfold walk_step. destruct (returned g st); [discriminate |].
  destruct ev as [n | n r |].
  - destruct (ready g st n); intros [= <-]; simpl; auto.
  - destruct (bool_decide (n ∈ in_flight st)); [| discriminate].
    destruct (visitor n (shared st)) as [r' w' |]; [| discriminate].
    destruct (bool_decide (r = r')); intros [= <-]; simpl.
    destruct r as [e |]; [auto |].
    rewrite elem_of_union, elem_of_singleton. intros [-> | Hd]; auto.
  - intros [= <-]; simpl; auto.
Qed.

(** A call is accepted only for a node all of whose dependencies have
    succeeded. *)
Lemma walk_step_call st n st' deps d :
  walk_step g visitor st (Call n) = Some st' ->
  g !! n = Some deps -> d ∈ deps -> d ∈ succeeded st.
Proof.
  unfold walk_step. destruct (returned g st); [discriminate |].
  unfold ready. intros Hstep Hg Hd. rewrite Hg in Hstep.
  destruct (forallb (fun d => bool_decide (d ∈ succeeded st)) deps) eqn:Hall.
  - rewrite forallb_forall in Hall.
    apply list_elem_of_In in Hd. apply Hall in Hd.
    now apply bool_decide_eq_true in Hd.
  - rewrite andb_false_r in Hstep. discriminate.
Qed.

Lemma walk_run_order evs : forall st st' i n deps d,
  walk_run g visitor st evs = Some st' ->
  evs !! i = Some (Call n) ->
  g !! n = Some deps -> d ∈ deps ->
  d ∈ succeeded st \/ exists j, (j < i)%nat /\ evs !! j = Some (Ret d None).
Proof.
  induction evs as [| ev rest IH]; intros st st' i n deps d Hrun Hi Hg Hd.
  - discriminate.
  - simpl in Hrun.
    destruct (walk_step g visitor st ev) as [st1 |] eqn:Hstep; [| discriminate].
    destruct i as [| i].
    + injection Hi as ->. left. eauto using walk_step_call.
    + simpl in Hi.
      destruct (IH st1 st' i n deps d Hrun Hi Hg Hd) as [Hs | (j & Hj & Hret)].
      * destruct (walk_step_succeeded _ _ _ _ Hstep Hs) as [Hs0 | ->]; [now left |].
        right. exists 0%nat. split; [lia | reflexivity].
      * right. exists (S j). split; [lia | exact Hret].
Qed.

End WalkOrder.

Section InstallOrder.
Import Metahelm InstallCases.
Context `{ChartDecls}.

Lemma adjacency_skip objs : forall (g : gmap string (list string)) (n : string),
  n ∉ map dag.go_Name objs ->
  foldl (fun g o => <[dag.go_Name o := dag.go_Dependencies o]> g) g objs !! n = g !! n.
Proof.
  induction objs as [| o objs IH]; intros g n Hn; simpl; [reflexivity |].
  simpl in Hn. apply not_elem_of_cons in Hn as [Hne Hn].
  rewrite IH by exact Hn. now rewrite lookup_insert_ne.
Qed.

(** With pairwise distinct names, every object is found in the graph
    under its name, with its dependencies. *)
Lemma adjacency_lookup objs o :
  NoDup (map dag.go_Name objs) -> o ∈ objs ->
  dag.adjacency objs !! dag.go_Name o = Some (dag.go_Dependencies o).
Proof.
  unfold dag.adjacency. generalize (∅ : gmap string (list string)).
  induction objs as [| o' objs IH]; intros g Hnd Ho; [now apply elem_of_nil in Ho |].
  simpl in *. apply NoDup_cons in Hnd as [Hfresh Hnd].
  apply elem_of_cons in Ho as [-> | Ho].
  - rewrite adjacency_skip by exact Hfresh. apply lookup_insert_eq.
  - now apply IH.
Qed.

Lemma Build_adjacency objs og : dag.Build objs = inl og -> og = dag.adjacency objs.
Proof.
  unfold dag.Build. destruct (dag.dangling _); [| discriminate].
  destruct (dag.kahn _ _ _); [| discriminate]. now intros [= <-].
Qed.

Lemma graph_object_default c : graph_object (with_default_timeout c) = graph_object c.
Proof. unfold with_default_timeout. now destruct (WaitTimeout c =? 0). Qed.

(** The objects handed to [Build] are those of the charts, in order. *)
Lemma prepare_objs todo : forall i charts cmap objs charts' cmap' objs',
  (i + todo = length charts)%nat ->
  prepare todo i charts cmap objs = Prepared charts' cmap' objs' ->
  objs' = (objs ++ map graph_object (drop i charts))%list.
Proof.
  induction todo as [| todo IH]; intros i charts cmap objs charts' cmap' objs' Hlen; simpl.
  - intros [= <- <- <-]. rewrite drop_ge by lia. now rewrite app_nil_r.
  - destruct (charts !! i) as [c |] eqn:Hi.
    2:{ apply lookup_ge_None in Hi. lia. }
    destruct (String.eqb _ ""); [discriminate |].
    rewrite (drop_S _ _ _ Hi). simpl.
    destruct (DeploymentHealthIndication (with_default_timeout c)); try discriminate;
      intros Hp; apply IH in Hp; try (rewrite length_insert; lia);
      rewrite Hp, drop_insert_lt, graph_object_default, <- app_assoc by lia; reflexivity.
Qed.

(** The graph that [Install] walks has, for every chart, a node under
    its name whose dependencies are those the chart lists. *)
Lemma Install_setup_graph h charts opts ops charts1 cmap og w v :
  NoDup (map Name charts) ->
  Install_setup h charts opts = Walking ops charts1 cmap og w ->
  v ∈ charts ->
  og !! Name v = Some (map sanitize (DependencyList v)).
Proof.
  intros Hnd Hs Hv. unfold Install_setup in Hs.
  destruct (length charts =? 0)%nat; [discriminate |].
  destruct (prepare (length charts) 0 charts ∅ []) as [? ? | cs cm objs] eqn:Hp;
    [discriminate |].
  destruct (dag.Build objs) as [og' |] eqn:Hb; [| discriminate].
  injection Hs as _ _ _ <- _.
  apply Build_adjacency in Hb. subst og'.
  apply prepare_objs in Hp; [| reflexivity]. simpl in Hp. subst objs.
  apply (adjacency_lookup _ (graph_object v)).
  - now rewrite <- list_fmap_compose.
  - now apply list_elem_of_fmap_2.
Qed.

(** C1. For a set of charts with pairwise distinct names, along any run
    of the walk that [Install] starts: if chart [v] lists the title of
    chart [u] among its dependencies, then before the visitor is called
    on [v] it has returned success on [u]. *)
Theorem dependency_returns_first (m : Manager) (turns : nat) (h : list Effect)
    (charts : list Chart) (opts : list InstallOption)
    (ops : options) (charts1 : list Chart) (cmap : gmap string nat)
    (og : gmap string (list string)) (w : World)
    (evs : list dag.event) (st : dag.walk_state World) (u v : Chart) (i : nat) :
  NoDup (map Name charts) ->
  Install_setup h charts opts = Walking ops charts1 cmap og w ->
  dag.walk_run og (af m ops charts1 cmap turns) (dag.walk_init w) evs = Some st ->
  u ∈ charts -> v ∈ charts ->
  Title u ∈ DependencyList v ->
  evs !! i = Some (dag.Call (Name v)) ->
  exists j, (j < i)%nat /\ evs !! j = Some (dag.Ret (Name u) None).
Proof.
  intros Hnd Hs Hrun _ Hv Hdep Hcall.
  pose proof (Install_setup_graph _ _ _ _ _ _ _ _ _ Hnd Hs Hv) as Hg.
  assert (Hd : Name u ∈ map sanitize (DependencyList v))
    by (unfold Name; now apply (list_elem_of_fmap_2 sanitize)).
  destruct (walk_run_order _ _ _ _ _ _ _ _ _ Hrun Hcall Hg Hd) as [Hin | Hj];
    [| exact Hj].
  simpl in Hin. now apply not_elem_of_empty in Hin.
Qed.

End InstallOrder.

Section InstallOrderExample.
Import Metahelm InstallCases.

Lemma dependency_returns_first_witness :
  test_run !! 3%nat = Some (dag.Call "anotherthing")
  /\ exists j, (j < 3)%nat /\ test_run !! j = Some (dag.Ret "redis" None).
Proof.
  split; [reflexivity |].
  eapply (dependency_returns_first (H := decls) (clients (Some 1) 1) 1 [] testCharts []
            _ _ _ _ _ test_run _
            (chart "redis" [] IgnorePodHealth)
            (chart "anotherthing" ["redis"] AllPodsHealthy) 3).
  - apply (bool_decide_unpack _). vm_compute. exact I.
  - vm_compute. reflexivity.
  - vm_compute. reflexivity.
  - apply list_elem_of_In. simpl. auto 10.
  - apply list_elem_of_In. simpl. auto 10.
  - apply list_elem_of_In. simpl. auto.
  - reflexivity.
Defined.

End InstallOrderExample.

(** ** [Upgrade] *)

Section UpgradeFacts.
Import Metahelm InstallCases Upgrading UpgradeCases.
Context `{ChartDecls}.

(** C8. If some chart has no entry in the release map, [Upgrade]
    returns [ErrMissingRelease] for such a chart, whatever the run, and
    the installer's releases are as before: no upgrade operation has been
    performed. *)
Theorem Upgrade_missing_release (evs : list dag.event) (w : Helm)
    (release_map : gmap string string) (charts : list Chart)
    (opts : list InstallOption) (c : Chart) :
  c ∈ charts -> release_map !! Title c = None ->
  exists c0, c0 ∈ charts /\ release_map !! Title c0 = None /\
    Upgrade evs w release_map charts opts = Some (Some (ErrMissingRelease (Title c0)), w).
Proof.
  intros Hc Hnone. unfold Upgrade, missing_release.
  destruct (List.find _ charts) as [c0 |] eqn:Hfind.
  - apply find_some in Hfind as [Hin Hb].
    exists c0. repeat split.
    + now apply list_elem_of_In.
    + now apply bool_decide_eq_true in Hb.
  - apply list_elem_of_In in Hc.
    pose proof (find_none _ _ Hfind c Hc) as Hb. simpl in Hb.
    apply bool_decide_eq_false in Hb. contradiction.
Qed.

End UpgradeFacts.

Section UpgradeExample.
Import Metahelm InstallCases Upgrading UpgradeCases.

Lemma Upgrade_missing_release_witness :
  exists c0, c0 ∈ testCharts /\ known_releases !! Title c0 = None /\
    Upgrade (H := decls) test_run installed known_releases testCharts []
    = Some (Some (ErrMissingRelease (Title c0)), installed).
Proof.
  apply (Upgrade_missing_release (H := decls) test_run installed known_releases testCharts []
           (chart "toplevel" ["someservice"; "anotherthing"; "redis"] IgnorePodHealth)).
  - apply list_elem_of_In. simpl. auto.
  - vm_compute. reflexivity.
Defined.

End UpgradeExample.

(** ** [ReleaseName] *)

Section SanitizerFacts.
Import Sanitizer.

Lemma replace_rune_allowed r : allowed (replace_rune r) = true.
Proof. unfold replace_rune. destruct (allowed r) eqn:Hr; [exact Hr | reflexivity]. Qed.

Lemma collapse_valid s : valid s -> valid (collapse s).
Proof.
  unfold valid. induction s as [| a rest IH]; intros Hs; [constructor |].
  apply Forall_cons in Hs as [Ha Hrest]. specialize (IH Hrest). simpl.
  destruct rest as [| b rest']; [now repeat constructor |].
  destruct ((a =? dash) && (b =? dash)); [exact IH | now constructor].
Qed.

Lemma strip_leading_valid s : valid s -> valid (strip_leading s).
Proof.
  unfold valid. induction s as [| a rest IH]; intros Hs; [constructor |].
  simpl. destruct (a =? dash); [| exact Hs].
  apply IH. now apply Forall_cons in Hs as [_ Hrest].
Qed.

Lemma strip_valid s : valid s -> valid (strip s).
Proof.
  intros Hs. unfold strip, valid.
  apply Forall_rev, strip_leading_valid, Forall_rev, strip_leading_valid, Hs.
Qed.

Lemma sanitized_valid lower input : valid (sanitized lower input).
Proof.
  unfold sanitized. apply strip_valid, collapse_valid.
  unfold valid. apply Forall_map, Forall_forall. intros r _. apply replace_rune_allowed.
Qed.

Lemma hex_digit_allowed d : 0 <= d < 16 -> allowed (hex_digit d) = true.
Proof.
  intros Hd. unfold allowed, hex_digit, dash.
  destruct (d <? 10) eqn:Hlt.
  - apply Z.ltb_lt in Hlt.
    replace (48 <=? 48 + d) with true by (symmetry; apply Z.leb_le; lia).
    replace (48 + d <=? 57) with true by (symmetry; apply Z.leb_le; lia).
    simpl. now rewrite orb_true_r.
  - apply Z.ltb_ge in Hlt.
    replace (97 <=? 87 + d) with true by (symmetry; apply Z.leb_le; lia).
    replace (87 + d <=? 122) with true by (symmetry; apply Z.leb_le; lia).
    reflexivity.
Qed.

Lemma hash_prefix_valid input : valid (hash_prefix input).
Proof.
  unfold valid, hash_prefix. apply Forall_map, Forall_forall. intros k _.
  apply hex_digit_allowed, Z.mod_pos_bound. lia.
Qed.

(** C7. For every non-empty input, whatever the lowercase mapping,
    [ReleaseName] is not empty, has at most 53 code points, and consists
    of characters of [a-z0-9-]. *)
Theorem ReleaseName_valid (lower : rune -> rune) (input : list rune) :
  input <> [] ->
  ReleaseName lower input <> []
  /\ (length (ReleaseName lower input) <= 53)%nat
  /\ valid (ReleaseName lower input).
Proof.
  intros Hne. unfold ReleaseName.
  pose proof (sanitized_valid lower input) as Hclean.
  destruct input as [| r0 input']; [contradiction |].
  set (name := match sanitized lower (r0 :: input') with
               | [] => hash_prefix (r0 :: input')
               | _ :: _ => sanitized lower (r0 :: input')
               end).
  assert (Hname : name <> [] /\ valid name).
  { unfold name. destruct (sanitized lower (r0 :: input')) as [| a rest].
    - split; [discriminate | apply hash_prefix_valid].
    - split; [discriminate | exact Hclean]. }
  destruct Hname as [Hnz Hv].
  change (match sanitized lower (r0 :: input') with
          | [] => hash_prefix (r0 :: input')
          | r :: l => r :: l
          end) with name.
  repeat split.
  - destruct name; [contradiction | discriminate].
  - apply firstn_le_length.
  - unfold valid. now apply Forall_take.
Qed.

Lemma ReleaseName_valid_witness :
  let input := [8984; 26085; 26412; 35486] in
  ReleaseName ascii_lower input = runes "c6fd0560"
  /\ ReleaseName ascii_lower input <> []
  /\ (length (ReleaseName ascii_lower input) <= 53)%nat
  /\ valid (ReleaseName ascii_lower input).
Proof.
  split; [vm_compute; reflexivity |].
  apply (ReleaseName_valid ascii_lower [8984; 26085; 26412; 35486]).
  discriminate.
Defined.

(** The inputs of [TestReleaseName] that are ASCII. *)
Example ReleaseName_short :
  ReleaseName ascii_lower (runes "some-release-name") = runes "some-release-name".
Proof. vm_compute. reflexivity. Qed.

Example ReleaseName_long :
  ReleaseName ascii_lower
    (runes "this-is-an-exceedingly-long-release-name-that-would-fail-installation")
  = runes "this-is-an-exceedingly-long-release-name-that-would-f".
Proof. vm_compute. reflexivity. Qed.

End SanitizerFacts.

(** ** The scenarios of the tests *)

Section Scenarios.
Import Metahelm InstallCases.

(** The four charts install along [test_run], and every chart gets its
    release. *)
Example Install_testCharts :
  exists r,
    Install (H := decls) (clients (Some 1) 1) 1 test_run [] testCharts [] = Some r
    /\ ret_err r = None
    /\ (ret_rmap r ≫= (.!! "redis")) = Some "release-/foo"
    /\ (size <$> ret_rmap r) = Some 4%nat.
Proof. eexists. split; [vm_compute; reflexivity |]. repeat split. Qed.

(** [toplevel] cannot be visited first. *)
Example Install_toplevel_first :
  Install (H := decls) (clients (Some 1) 1) 1 (dag.Call "toplevel" :: test_run)
          [] testCharts [] = None.
Proof. vm_compute. reflexivity. Qed.

(** A callback that aborts [redis]: the walk halts on its error, after
    one call of the callback and no call of the installer. *)
Example Install_abort :
  let cb : InstallCallback :=
    fun _ c => if String.eqb (Title c) "redis" then Abort else Continue in
  exists r,
    Install (H := decls) (clients (Some 1) 1) 1
            [dag.Call "redis"; dag.Ret "redis" (Some "callback requested abort")]
            [] testCharts [WithInstallCallback (Some cb)] = Some r
    /\ ret_rmap r = None
    /\ ret_err r = Some "error running installs: callback requested abort"
    /\ length (ret_history r) = 3%nat.
Proof. eexists. split; [vm_compute; reflexivity |]. repeat split. Qed.

(** A dependency of [redis] on [anotherthing] closes a cycle, and a
    dependency on a chart that is not there dangles. *)
Example Install_cycle :
  let charts := [ chart "anotherthing" ["redis"] AllPodsHealthy;
                  chart "redis" ["anotherthing"] IgnorePodHealth ] in
  ret_err <$> Install (H := decls) (clients (Some 1) 1) 1 [] [] charts []
  = Some (Some "error building graph: dependency cycle").
Proof. vm_compute. reflexivity. Qed.

Example Install_unknown_dependency :
  let charts := [ chart "redis" ["doesntexist"] IgnorePodHealth ] in
  ret_err <$> Install (H := decls) (clients (Some 1) 1) 1 [] [] charts []
  = Some (Some "error building graph: unknown dependency: doesntexist").
Proof. vm_compute. reflexivity. Qed.

(** An empty location is refused, after the timeout of the chart has
    been set. *)
Example Install_empty_location :
  let c := {| Title := "redis"; Location := ""; ValueOverrides := [];
              WaitUntilDeployment := ""; WaitUntilHelmSaysItsReady := false;
              WaitTimeout := 0; DeploymentHealthIndication := IgnorePodHealth;
              DependencyList := [] |} in
  exists r,
    Install (H := decls) (clients (Some 1) 1) 1 [] [] [c] [] = Some r
    /\ ret_err r = Some "empty location for chart: redis (offset 0)"
    /\ (WaitTimeout <$> ret_charts r) = [600 * 1000000000].
Proof. eexists. split; [vm_compute; reflexivity |]. repeat split. Qed.

End Scenarios.

(** ** More of the failure aggregator *)

Section AggregatorFacts.
Import Failures FailureNotions FailureCases.

(** X1. The log loop, when every fetch succeeds, adds an entry exactly for
    the names of the containers that are not ready and last terminated
    with a non-zero exit code, and leaves the line limit as it was. *)
Theorem collect_logs_keys kc ns podname css : forall plopts logs0 logs plopts',
  collect_logs kc ns podname css plopts logs0 = inr (logs, plopts') ->
  TailLines plopts' = TailLines plopts
  /\ forall name : string,
       is_Some (logs !! name) <->
       is_Some (logs0 !! name)
       \/ exists cs, cs ∈ css /\ cs_Name cs = name /\ wants_logs cs = true.
Proof.
  induction css as [| cs rest IH]; intros plopts logs0 logs plopts' Hc; simpl in Hc.
  - injection Hc as <- <-. split; [reflexivity |]. intros name. split; [auto |].
    intros [Hs | (cs & Hin & _)]; [exact Hs | now apply elem_of_nil in Hin].
  - fold (wants_logs cs) in Hc. destruct (wants_logs cs) eqn:Hw.
    + destruct (Pods_GetLogs kc ns podname _) as [e | e | b]; try discriminate.
      apply IH in Hc as [Ht Hk]. split; [exact Ht |]. intros name.
      rewrite Hk. split.
      * intros [Hs | (cs' & Hin & Hn & Hw')].
        -- destruct (decide (cs_Name cs = name)) as [Heq | Hne].
           ++ right. exists cs. split; [apply elem_of_cons; auto | auto].
           ++ left. now rewrite lookup_insert_ne in Hs.
        -- right. exists cs'. split; [apply elem_of_cons; auto | auto].
      * intros [Hs | (cs' & Hin & Hn & Hw')].
        -- left. destruct (decide (cs_Name cs = name)) as [-> | Hne].
           ++ rewrite lookup_insert_eq. eauto.
           ++ now rewrite lookup_insert_ne.
        -- apply elem_of_cons in Hin as [-> | Hin].
           ++ left. subst name. rewrite lookup_insert_eq. eauto.
           ++ right. eauto.
    + apply IH in Hc as [Ht Hk]. split; [exact Ht |]. intros name.
      rewrite Hk. split.
      * intros [Hs | (cs' & Hin & Hn & Hw')]; [now left |].
        right. exists cs'. split; [apply elem_of_cons; auto | auto].
      * intros [Hs | (cs' & Hin & Hn & Hw')]; [now left |].
        apply elem_of_cons in Hin as [-> | Hin]; [congruence |]. right. eauto.
Qed.

Lemma collect_logs_keys_witness :
  let cs := {| cs_Name := "app"; cs_Ready := false; cs_Terminated := Some 1 |} in
  let ok := {| cs_Name := "sidecar"; cs_Ready := true; cs_Terminated := Some 1 |} in
  let plopts := {| TailLines := Some 10; Container := "" |} in
  exists logs plopts',
    collect_logs (cluster "Failed") "default" "pod-0" [cs; ok] plopts ∅ = inr (logs, plopts')
    /\ TailLines plopts' = Some 10
    /\ is_Some (logs !! "app") /\ logs !! "sidecar" = None.
Proof.
  intros cs ok plopts.
  pose proof (collect_logs_keys (cluster "Failed") "default" "pod-0" [cs; ok] plopts ∅) as H.
  eexists _, _. split; [vm_compute; reflexivity |].
  edestruct H as [Ht Hk]; [vm_compute; reflexivity |].
  split; [exact Ht |]. split.
  - apply Hk. right. exists cs. repeat split. apply list_elem_of_here.
  - vm_compute. reflexivity.
Defined.

Lemma collect_pods_appends kc ns pods : forall plopts acc fps plopts',
  collect_pods kc ns pods plopts acc = inr (fps, plopts') ->
  exists new, fps = (acc ++ new)%list /\ Forall2 record_of pods new.
Proof.
  induction pods as [| pod rest IH]; intros plopts acc fps plopts' Hc; simpl in Hc.
  - injection Hc as <- <-. exists []. split; [now rewrite app_nil_r | constructor].
  - rewrite phase_test_always in Hc.
    destruct (collect_logs kc ns (pod_Name pod) (pod_ContainerStatuses pod) plopts ∅)
      as [e | [logs plopts1]]; [discriminate |].
    apply IH in Hc as (new & -> & Hnew).
    eexists (_ :: new). split; [now rewrite <- app_assoc |].
    constructor; [| exact Hnew]. repeat split.
Qed.

(** X2. The pod loop, when every log fetch succeeds, appends one record per
    listed pod, in the order of the listing, each with the name, phase,
    message, reason, conditions and container statuses of its pod. *)
Theorem collect_pods_records kc ns pods plopts acc fps plopts' :
  collect_pods kc ns pods plopts acc = inr (fps, plopts') ->
  exists new, fps = (acc ++ new)%list /\ Forall2 record_of pods new.
Proof.
  revert plopts acc fps plopts'.
  induction pods as [| pod rest IH]; intros plopts acc fps plopts' Hc; simpl in Hc.
  - injection Hc as <- <-. exists []. split; [now rewrite app_nil_r | constructor].
  - rewrite phase_test_always in Hc.
    destruct (collect_logs kc ns (pod_Name pod) (pod_ContainerStatuses pod) plopts ∅)
      as [e | [logs plopts1]]; [discriminate |].
    apply IH in Hc as (new & -> & Hnew).
    eexists (_ :: new). split; [now rewrite <- app_assoc |].
    constructor; [| exact Hnew]. repeat split.
Qed.

Lemma collect_pods_records_witness :
  exists fps plopts',
    collect_pods (cluster PodRunning) "default" [one_pod PodRunning; one_pod "Pending"]
                 {| TailLines := None; Container := "" |} [] = inr (fps, plopts')
    /\ exists new, fps = ([] ++ new)%list
                   /\ Forall2 record_of [one_pod PodRunning; one_pod "Pending"] new.
Proof.
  eexists _, _. split; [vm_compute; reflexivity |].
  eapply (collect_pods_records (cluster PodRunning) "default"
            [one_pod PodRunning; one_pod "Pending"]
            {| TailLines := None; Container := "" |} [] _
            {| TailLines := None; Container := "" |}).
  vm_compute. reflexivity.
Defined.

(** X3. [PopulateFromDeployment] writes at most once: either the store is
    as it was, or the call returned nil and the only change is the entry
    of the deployment in [FailedDeployments], which lists one record for
    every pod a listing returned. Whenever the call returns an error or
    panics, nothing has been written. *)
Theorem PopulateFromDeployment_writes_once ce h namespace deploymentName kc maxloglines :
  let res := PopulateFromDeployment ce h namespace deploymentName kc maxloglines in
  f_store (snd res) = h
  \/ (fst res = Returned None
      /\ exists l m fps items selector,
           FailedDeployments ce = Some l /\ h !! l = Some m
           /\ f_store (snd res) = <[l := <[deploymentName := fps]> m]> h
           /\ Pods_List kc namespace selector = (Some items, None)
           /\ Forall2 record_of items fps).
Proof.
  cbv zeta. unfold PopulateFromDeployment.
  destruct (Deployments_Get kc namespace deploymentName) as [[d |] [e |]]; simpl; auto.
  destruct (d_Replicas d); simpl; auto.
  destruct (GetNewReplicaSet kc d) as [[rs |] [e |]]; simpl; auto.
  destruct (d_Selector d) as [labels |]; simpl; auto.
  destruct (Pods_List kc namespace _) as [[items |] [e |]] eqn:Hl; simpl; auto.
  destruct (collect_pods kc namespace items _ []) as [e | [fps plopts]] eqn:Hc; simpl; auto.
  unfold map_assign.
  destruct (FailedDeployments ce) as [l |]; simpl; auto.
  destruct (h !! l) as [m |] eqn:Hm; simpl; auto.
  right. split; [reflexivity |].
  apply collect_pods_appends in Hc as (new & -> & Hnew).
  exists l, m, new, items. eexists. repeat split; eauto.
Qed.

(** Only a [Deployment] manifest leaves the first [switch] with
    selector strings. *)
Lemma select_deployment kc ns m ss :
  select kc ns m = Selector ss -> ss <> [] -> m_Kind m = "Deployment".
Proof.
  unfold select. intros Hs Hne.
  destruct (decide (m_Kind m = "Deployment")) as [Hd | Hd]; [assumption |].
  destruct (decide (m_Kind m = "Job")) as [Hj | Hj].
  { destruct (Jobs_Get kc ns (m_Name m)) as [j [e |]]; [discriminate |].
    destruct (wl_Selector j); [| discriminate]. injection Hs as <-. contradiction. }
  destruct (decide (m_Kind m = "DaemonSet")) as [Hds | Hds].
  { destruct (DaemonSets_Get kc ns (m_Name m)) as [j [e |]]; [discriminate |].
    destruct (wl_Selector j); [| discriminate]. injection Hs as <-. contradiction. }
  destruct (decide (m_Kind m = "Pod")) as [Hp | Hp]; [| discriminate].
  injection Hs as <-. contradiction.
Qed.

Lemma release_body_kept kc ns f m :
  match release_body kc ns f m with
  | Next f' => kept f f'
  | Leave _ f' => kept f f'
  end.
Proof.
  assert (Hrefl : kept f f) by (split; auto).
  unfold release_body.
  destruct (select kc ns m) as [ss | | o] eqn:Hs; try exact Hrefl.
  destruct ss as [| s0 ss']; [exact Hrefl |].
  assert (Hk : m_Kind m = "Deployment") by (eapply select_deployment; eauto; discriminate).
  cbn [length Nat.eqb].
  destruct (Pods_List kc ns _) as [[items |] [e |]]; try exact Hrefl.
  destruct (collect_pods kc ns items (f_plopts f) []) as [e | [fps plopts]]; [exact Hrefl |].
  unfold record_failed. rewrite Hk. simpl. unfold map_assign.
  destruct (FailedDeployments (f_ce f)) as [l0 |] eqn:Hl0; [| exact Hrefl].
  destruct (f_store f !! l0) as [m0 |]; [| exact Hrefl].
  split; simpl; [reflexivity |].
  intros l Hne. apply lookup_insert_ne. congruence.
Qed.

Lemma release_loop_kept kc ns ms : forall f,
  kept f (snd (release_loop kc ns f ms)).
Proof.
  induction ms as [| m rest IH]; intros f; simpl; [split; auto |].
  pose proof (release_body_kept kc ns f m) as Hb.
  destruct (release_body kc ns f m) as [f1 | o f1]; simpl; [| exact Hb].
  destruct Hb as [Hce Hst]. destruct (IH f1) as [Hce' Hst'].
  split; [congruence |].
  intros l Hne. rewrite Hst' by (rewrite Hce; exact Hne). now apply Hst.
Qed.

(** X4. The callee's copy of the receiver is, at the end of
    [PopulateFromRelease], the value it was given, and the only map of
    the store that may have changed is the one behind
    [FailedDeployments]: the maps of the jobs and of the daemon sets, and
    the pod list, are never written. *)
Theorem PopulateFromRelease_touches_deployments_only ce h rls kc maxloglines :
  let res := PopulateFromRelease ce h rls kc maxloglines in
  f_ce (snd res) = ce
  /\ forall l : loc, FailedDeployments ce <> Some l -> f_store (snd res) !! l = h !! l.
Proof.
  cbv zeta. unfold PopulateFromRelease. destruct rls as [r |]; simpl; [| auto].
  apply (release_loop_kept kc (rls_Namespace r) (rls_Manifests r)
           {| f_ce := ce; f_store := h;
              f_plopts := {| TailLines := maxlines_of maxloglines; Container := "" |} |}).
Qed.

End AggregatorFacts.

Section AggregatorEdges.
Import Failures FailureNotions FailureCases.

(** X5. Once the pods of the deployment are collected,
    [PopulateFromDeployment] on a [ChartError] whose [FailedDeployments]
    map is nil, as in the zero value, panics on the assignment. *)
Theorem PopulateFromDeployment_nil_map ce h namespace deploymentName kc maxloglines
    d replicas labels items fps plopts :
  Deployments_Get kc namespace deploymentName = (Some d, None) ->
  d_Replicas d = Some replicas ->
  GetNewReplicaSet kc d = (Some tt, None) ->
  d_Selector d = Some labels ->
  Pods_List kc namespace (String.concat "," (selector_strings labels)) = (Some items, None) ->
  collect_pods kc namespace items
               {| TailLines := maxlines_of maxloglines; Container := "" |} []
  = inr (fps, plopts) ->
  FailedDeployments ce = None ->
  PopulateFromDeployment ce h namespace deploymentName kc maxloglines
  = (Panicked, {| f_ce := ce; f_store := h;
                  f_plopts := {| TailLines := maxlines_of maxloglines; Container := "" |} |}).
Proof.
  intros Hd Hr Hrs Hs Hl Hc Hnil. unfold PopulateFromDeployment.
  rewrite Hd, Hr, Hrs, Hs, Hl. simpl. rewrite Hc, Hnil. reflexivity.
Qed.

Lemma PopulateFromDeployment_nil_map_witness :
  fst (PopulateFromDeployment zero_ChartError ∅ "default" "web" (cluster "Failed") 0)
  = Panicked.
Proof.
  rewrite (PopulateFromDeployment_nil_map zero_ChartError ∅ "default" "web"
             (cluster "Failed") 0
             {| d_Replicas := Some 1; d_Selector := Some [("app", "web")] |} 1
             [("app", "web")] [one_pod "Failed"] [failed_of (one_pod "Failed")]
             {| TailLines := None; Container := "" |});
    reflexivity.
Defined.

(** X6. The line limit handed to the log requests: none for a zero
    [maxloglines]; the number itself below [2^63]; from [2^63] on, the
    conversion to [int64] makes it negative. *)
Theorem maxlines_of_uint (maxloglines : Z) :
  0 <= maxloglines < 2 ^ 64 ->
  (maxlines_of maxloglines = None <-> maxloglines = 0)
  /\ (0 < maxloglines < 2 ^ 63 -> maxlines_of maxloglines = Some maxloglines)
  /\ (2 ^ 63 <= maxloglines ->
      maxlines_of maxloglines = Some (maxloglines - 2 ^ 64) /\ maxloglines - 2 ^ 64 < 0).
Proof.
  intros Hr. unfold maxlines_of, int64_of_uint.
  rewrite (Z.mod_small maxloglines (2 ^ 64)) by lia.
  destruct (0 <? maxloglines) eqn:Hpos;
    [apply Z.ltb_lt in Hpos | apply Z.ltb_ge in Hpos].
  - destruct (maxloglines <? 2 ^ 63) eqn:Hlt;
      [apply Z.ltb_lt in Hlt | apply Z.ltb_ge in Hlt].
    + split; [split; [discriminate | lia] |]. split; [reflexivity | lia].
    + split; [split; [discriminate | lia] |]. split; [lia |].
      intros _. split; [reflexivity | lia].
  - split; [split; [lia | reflexivity] |]. split; lia.
Qed.

Lemma maxlines_of_uint_witness :
  maxlines_of (2 ^ 63) = Some (- 2 ^ 63).
Proof.
  apply (proj1 (proj2 (proj2 (maxlines_of_uint (2 ^ 63) ltac:(lia))) ltac:(lia))).
Defined.

(** X7. A [Deployment] manifest whose deployment is fetched without error
    but declares no replica count ends [PopulateFromRelease] with a nil
    error at once: nothing is stored and the manifests after it are not
    looked at. *)
Theorem PopulateFromRelease_returns_nil_early ce h r kc maxloglines m rest d :
  rls_Manifests r = m :: rest ->
  m_Kind m = "Deployment" ->
  Deployments_Get kc (rls_Namespace r) (m_Name m) = (Some d, None) ->
  d_Replicas d = None ->
  let res := PopulateFromRelease ce h (Some r) kc maxloglines in
  fst res = Returned None /\ f_store (snd res) = h.
Proof.
  intros Hm Hk Hd Hr. cbv zeta. unfold PopulateFromRelease. rewrite Hm. simpl.
  unfold release_body, select. rewrite Hk. simpl. rewrite Hd, Hr. simpl. auto.
Qed.

Lemma PopulateFromRelease_returns_nil_early_witness :
  let kc := {| Deployments_Get := fun _ _ => (Some {| d_Replicas := None; d_Selector := None |}, None);
               GetNewReplicaSet := GetNewReplicaSet (cluster "Failed");
               Jobs_Get := Jobs_Get (cluster "Failed");
               DaemonSets_Get := DaemonSets_Get (cluster "Failed");
               Pods_List := Pods_List (cluster "Failed");
               Pods_GetLogs := Pods_GetLogs (cluster "Failed") |} in
  let r := {| rls_Namespace := "default";
              rls_Manifests := [ {| m_Name := "web"; m_Kind := "Deployment" |};
                                 {| m_Name := "db"; m_Kind := "Deployment" |} ] |} in
  let res := PopulateFromRelease zero_ChartError ∅ (Some r) kc 0 in
  fst res = Returned None /\ f_store (snd res) = ∅.
Proof.
  intros kc r.
  apply (PopulateFromRelease_returns_nil_early zero_ChartError ∅ r kc 0
           {| m_Name := "web"; m_Kind := "Deployment" |}
           [ {| m_Name := "db"; m_Kind := "Deployment" |} ]
           {| d_Replicas := None; d_Selector := None |}); reflexivity.
Defined.

End AggregatorEdges.

(** ** More of [Install] *)

Section PreparationFacts.
Import Metahelm InstallCases InstallNotions.
Context `{ChartDecls}.

Lemma acceptable_default c : acceptable (with_default_timeout c) = acceptable c.
Proof. unfold with_default_timeout. now destruct (WaitTimeout c =? 0). Qed.

(** The preparation loop goes on after an acceptable chart. *)
Lemma prepare_step todo i charts cmap objs c :
  charts !! i = Some c -> acceptable c = true ->
  prepare (S todo) i charts cmap objs
  = prepare todo (S i) (<[i := with_default_timeout c]> charts)
            (<[Name c := i]> cmap) (objs ++ [graph_object c])%list.
Proof.
  intros Hi Ha. simpl. rewrite Hi.
  rewrite <- (acceptable_default c) in Ha. unfold acceptable in Ha.
  assert (Hn : Name (with_default_timeout c) = Name c).
  { unfold with_default_timeout. now destruct (WaitTimeout c =? 0). }
  assert (Hg : graph_object (with_default_timeout c) = graph_object c).
  { unfold with_default_timeout. now destruct (WaitTimeout c =? 0). }
  rewrite Hn, Hg.
  destruct (String.eqb (Location (with_default_timeout c)) ""); [discriminate |].
  destruct (DeploymentHealthIndication (with_default_timeout c));
    try reflexivity; discriminate.
Qed.

Lemma prepare_unacceptable todo i charts cmap objs c :
  charts !! i = Some c -> acceptable c = false ->
  exists e, prepare (S todo) i charts cmap objs
            = Rejected (<[i := with_default_timeout c]> charts) e.
Proof.
  intros Hi Ha. simpl. rewrite Hi.
  rewrite <- (acceptable_default c) in Ha. unfold acceptable in Ha.
  destruct (String.eqb (Location (with_default_timeout c)) ""); [eauto |].
  destruct (DeploymentHealthIndication (with_default_timeout c)); try discriminate.
  eauto.
Qed.

Lemma prepare_rejects todo : forall i charts cmap objs,
  (i + todo = length charts)%nat ->
  Exists (fun c => acceptable c = false) (drop i charts) ->
  exists cs e, prepare todo i charts cmap objs = Rejected cs e.
Proof.
  induction todo as [| todo IH]; intros i charts cmap objs Hlen Hex.
  - rewrite drop_ge in Hex by lia. now apply Exists_nil in Hex.
  - destruct (charts !! i) as [c |] eqn:Hi.
    2:{ apply lookup_ge_None in Hi. lia. }
    destruct (acceptable c) eqn:Ha.
    + rewrite (prepare_step _ _ _ _ _ _ Hi Ha).
      apply IH; [rewrite length_insert; lia |].
      rewrite drop_insert_lt by lia.
      rewrite (drop_S _ _ _ Hi) in Hex.
      apply Exists_cons in Hex as [Hbad | Hex]; [congruence | exact Hex].
    + destruct (prepare_unacceptable todo i charts cmap objs c Hi Ha) as [e He]. eauto.
Qed.

Lemma prepare_accepts todo : forall i charts cmap objs cs cmap' objs',
  (i + todo = length charts)%nat ->
  prepare todo i charts cmap objs = Prepared cs cmap' objs' ->
  cs = (take i charts ++ map with_default_timeout (drop i charts))%list
  /\ Forall (fun c => acceptable c = true) (drop i charts).
Proof.
  induction todo as [| todo IH]; intros i charts cmap objs cs cmap' objs' Hlen.
  - simpl. intros [= <- <- <-]. rewrite drop_ge by lia. rewrite take_ge by lia.
    split; [now rewrite app_nil_r | constructor].
  - destruct (charts !! i) as [c |] eqn:Hi.
    2:{ apply lookup_ge_None in Hi. lia. }
    destruct (acceptable c) eqn:Ha.
    + rewrite (prepare_step _ _ _ _ _ _ Hi Ha). intros Hp.
      apply IH in Hp as [-> Hall]; [| rewrite length_insert; lia].
      rewrite drop_insert_lt in * by lia.
      rewrite (drop_S _ _ _ Hi). split.
      * assert (Hlt : (i < length charts)%nat) by (apply lookup_lt_is_Some; eauto).
        rewrite (take_S_r _ i (with_default_timeout c))
          by (now apply list_lookup_insert_eq).
        rewrite take_insert_ge by lia. now rewrite <- app_assoc.
      * constructor; assumption.
    + destruct (prepare_unacceptable todo i charts cmap objs c Hi Ha) as [e He].
      rewrite He. discriminate.
Qed.

(** X8. A chart with an empty location, or with a health indication that is
    none of the three named ones, makes [Install] return a nil release
    map and an error before anything happens: no graph is built and no
    client or callback is called. *)
Theorem Install_rejects_chart (m : Manager) (turns : nat) (evs : list dag.event)
    (h : list Effect) (charts : list Chart) (opts : list InstallOption) :
  Exists (fun c => acceptable c = false) charts ->
  exists r, Install m turns evs h charts opts = Some r
            /\ ret_rmap r = None /\ is_Some (ret_err r) /\ ret_history r = h.
Proof.
  intros Hex. unfold Install, Install_setup.
  destruct charts as [| c0 charts']; [now apply Exists_nil in Hex |].
  replace (length (c0 :: charts') =? 0)%nat with false by reflexivity.
  destruct (prepare_rejects (length (c0 :: charts')) 0 (c0 :: charts') ∅ []) as (cs & e & Hp);
    [reflexivity | exact Hex |].
  rewrite Hp. eexists. split; [reflexivity |]. simpl. eauto.
Qed.

(** X9. When [Install] returns without error, every chart was acceptable
    and the caller's slice holds the charts with their timeouts
    defaulted: a zero [WaitTimeout] has become
    [DefaultDeploymentTimeout], everything else is as given. *)
Theorem Install_success_charts (m : Manager) (turns : nat) (evs : list dag.event)
    (h : list Effect) (charts : list Chart) (opts : list InstallOption) (r : returns) :
  Install m turns evs h charts opts = Some r ->
  ret_err r = None ->
  ret_charts r = map with_default_timeout charts
  /\ Forall (fun c => acceptable c = true) charts
  /\ charts <> [].
Proof.
  unfold Install, Install_setup. intros Hr Herr.
  destruct charts as [| c0 charts']; [injection Hr as <-; discriminate |].
  replace (length (c0 :: charts') =? 0)%nat with false in Hr by reflexivity.
  destruct (prepare _ 0 (c0 :: charts') ∅ []) as [cs e | cs cmap objs] eqn:Hp;
    [injection Hr as <-; discriminate |].
  apply prepare_accepts in Hp as [-> Hall]; [| reflexivity].
  rewrite drop_0 in *. rewrite take_0 in *.
  destruct (dag.Build objs) as [og | e]; [| injection Hr as <-; discriminate].
  destruct (dag.Walk og _ _ evs) as [[[e |] w'] |]; try discriminate;
    injection Hr as <-; [discriminate |].
  repeat split; [assumption | discriminate].
Qed.

End PreparationFacts.

Section PreparationExamples.
Import Metahelm InstallCases InstallNotions.

Lemma Install_rejects_chart_witness :
  exists r,
    Install (H := decls) (clients (Some 1) 1) 1 test_run []
            (testCharts ++ [chart "x" [] (OtherIndication 9999)]) [] = Some r
    /\ ret_rmap r = None /\ is_Some (ret_err r) /\ ret_history r = [].
Proof.
  apply (Install_rejects_chart (H := decls)).
  apply Exists_exists. exists (chart "x" [] (OtherIndication 9999)).
  split; [| reflexivity]. apply list_elem_of_In. simpl. auto 10.
Defined.

Lemma Install_success_charts_witness :
  exists r,
    Install (H := decls) (clients (Some 1) 1) 1 test_run [] testCharts [] = Some r
    /\ ret_charts r = map (with_default_timeout (H := decls)) testCharts.
Proof.
  eexists. split; [vm_compute; reflexivity |].
  eapply (Install_success_charts (H := decls) (clients (Some 1) 1) 1 test_run [] testCharts []);
    vm_compute; reflexivity.
Defined.

End PreparationExamples.

(** ** More of the readiness wait and of the visitor *)

Section WaitFacts.
Import Metahelm InstallCases InstallNotions.

(** What a tick that declares the chart ready has seen. *)
Lemma poll_condition_true m c ns h h1 err :
  poll_condition m c ns h = (true, err, h1) ->
  err = None /\
  exists d replicas rs,
    Deployments_Get m h ns (WaitUntilDeployment c) = (d, None) /\
    Replicas d = Some replicas /\
    GetNewReplicaSet m (DeploymentFetched ns (WaitUntilDeployment c) :: h) d = (Some rs, None) /\
    needed c replicas <= ReadyReplicas rs.
Proof.
  unfold poll_condition.
  destruct (Deployments_Get m h ns (WaitUntilDeployment c)) as [d [e |]]; [discriminate |].
  destruct (Replicas d) as [replicas |] eqn:Hd; [| discriminate].
  destruct (GetNewReplicaSet m _ d) as [rs [e |]] eqn:Hrs; [discriminate |].
  destruct rs as [rs |]; [| discriminate].
  intros [= Hle <- _]. split; [reflexivity |].
  exists d, replicas, rs. repeat split; try assumption.
  unfold needed. now apply Z.leb_le.
Qed.

Lemma poll_ticks_success ticks interval condition : forall h h',
  poll_ticks ticks interval condition h = (None, h') ->
  exists h0 h1, condition h0 = (true, None, h1).
Proof.
  induction ticks as [| ticks IH]; intros h h'; simpl; [discriminate |].
  destruct (condition (Slept interval :: h)) as [[ok err] h1] eqn:Hc.
  destruct err as [e |]; [discriminate |].
  destruct ok; [eauto | apply IH].
Qed.

(** X10. [waitForChart] returns nil for a chart that is not
    [IgnorePodHealth] only if some tick of the poll has fetched the
    deployment without error, found a declared replica count and a new
    replica set, and seen at least the needed number of ready replicas. *)
Theorem waitForChart_success_observed (m : Manager) (c : Chart) (ns : string)
    (h h' : list Effect) :
  DeploymentHealthIndication c <> IgnorePodHealth ->
  waitForChart m c ns h = (None, h') ->
  exists h0 d replicas rs,
    Deployments_Get m h0 ns (WaitUntilDeployment c) = (d, None) /\
    Replicas d = Some replicas /\
    GetNewReplicaSet m (DeploymentFetched ns (WaitUntilDeployment c) :: h0) d
    = (Some rs, None) /\
    needed c replicas <= ReadyReplicas rs.
Proof.
  intros Hi Hw. unfold waitForChart, Poll in Hw.
  assert (Hp : exists h0 h1, poll_condition m c ns h0 = (true, None, h1)).
  { destruct (DeploymentHealthIndication c); try congruence;
      eapply poll_ticks_success; exact Hw. }
  destruct Hp as (h0 & h1 & Hc).
  apply poll_condition_true in Hc as (_ & d & replicas & rs & Hrest).
  exists h0, d, replicas, rs. exact Hrest.
Qed.

Lemma waitForChart_success_observed_witness :
  exists h0 d replicas rs,
    Deployments_Get (clients (Some 1) 1) h0 "default" "anotherthing" = (d, None) /\
    Replicas d = Some replicas /\
    GetNewReplicaSet (clients (Some 1) 1) (DeploymentFetched "default" "anotherthing" :: h0) d
    = (Some rs, None) /\
    needed (chart "anotherthing" ["redis"] AllPodsHealthy) replicas <= ReadyReplicas rs.
Proof.
  eapply (waitForChart_success_observed (clients (Some 1) 1)
            (chart "anotherthing" ["redis"] AllPodsHealthy) "default" []).
  - discriminate.
  - vm_compute. reflexivity.
Defined.




(** X12. An error of the Kubernetes client on the first tick ends the wait
    at once with that error, wrapped: the poll does not try again. *)
Theorem waitForChart_client_error (m : Manager) (c : Chart) (ns : string)
    (h : list Effect) (d : Deployment) (e : error) :
  DeploymentHealthIndication c <> IgnorePodHealth ->
  Deployments_Get m (Slept chartWaitPollInterval :: h) ns (WaitUntilDeployment c)
  = (d, Some e) ->
  waitForChart m c ns h
  = (Some ("error getting deployment: " +:+ e),
     DeploymentFetched ns (WaitUntilDeployment c) :: Slept chartWaitPollInterval :: h).
Proof.
  intros Hi Hd. unfold waitForChart, Poll.
  destruct (Z.to_nat (Z.max 1 (WaitTimeout c / chartWaitPollInterval))) as [| n] eqn:Hn;
    [lia |].
  destruct (DeploymentHealthIndication c); try congruence;
    simpl; unfold poll_condition; rewrite Hd; reflexivity.
Qed.

Lemma waitForChart_client_error_witness :
  let m := {| InstallRelease := InstallRelease (clients (Some 1) 1);
              Deployments_Get := fun _ _ name =>
                ({| dep_Name := name; Replicas := None |}, Some "not found");
              GetNewReplicaSet := GetNewReplicaSet (clients (Some 1) 1) |} in
  fst (waitForChart m (chart "anotherthing" ["redis"] AllPodsHealthy) "default" [])
  = Some "error getting deployment: not found".
Proof.
  intros m.
  rewrite (waitForChart_client_error m (chart "anotherthing" ["redis"] AllPodsHealthy)
             "default" [] {| dep_Name := "anotherthing"; Replicas := None |} "not found");
    [reflexivity | discriminate | reflexivity].
Defined.

Context `{ChartDecls}.

Lemma callback_loop_effects turns cb c : forall h,
  match callback_loop turns (Some cb) c h with
  | Broke _ => False
  | Returns _ h' | Spins h' =>
      exists pre, h' = (pre ++ h)%list /\ Forall callback_effect pre
  end.
Proof.
  induction turns as [| turns IH]; intros h; simpl.
  - exists []. split; [reflexivity | constructor].
  - assert (Hgo : forall h1 pre1, h1 = (pre1 ++ h)%list -> Forall callback_effect pre1 ->
                  match callback_loop turns (Some cb) c h1 with
                  | Broke _ => False
                  | Returns _ h' | Spins h' =>
                      exists pre, h' = (pre ++ h)%list /\ Forall callback_effect pre
                  end).
    { intros h1 pre1 -> Hpre. specialize (IH (pre1 ++ h)%list).
      destruct (callback_loop turns (Some cb) c (pre1 ++ h)); try exact IH;
        destruct IH as (pre & -> & Hp); exists (pre ++ pre1)%list;
        (split; [now rewrite app_assoc | now apply Forall_app]). }
    destruct (cb h c =? Continue).
    { apply (Hgo _ [CallbackInvoked c]); [reflexivity | repeat constructor]. }
    destruct (cb h c =? Wait).
    { apply (Hgo _ [Slept retryDelay; CallbackInvoked c]); [reflexivity | repeat constructor]. }
    destruct (cb h c =? Abort);
      (exists [CallbackInvoked c]; split; [reflexivity | repeat constructor]).
Qed.

(** X13. With an install callback set, a visitor that returns has returned
    an error, has left the release map as it was, and has done nothing
    but call the callback and sleep: [InstallRelease] is not called. *)
Theorem callback_blocks_install (m : Manager) (ops : options) (charts : list Chart)
    (cmap : gmap string nat) (turns : nat) (obj : string) (w w' : World)
    (cb : InstallCallback) (r : option error) :
  installCallback ops = Some cb ->
  af m ops charts cmap turns obj w = dag.Visited r w' ->
  is_Some r /\ rmap w' = rmap w
  /\ exists pre, history w' = (pre ++ history w)%list /\ Forall callback_effect pre.
Proof.
  intros Hcb. unfold af.
  destruct (cmap !! obj ≫= (charts !!.)) as [c |]; [| discriminate].
  rewrite Hcb. pose proof (callback_loop_effects turns cb c (history w)) as Hl.
  destruct (callback_loop turns (Some cb) c (history w)) as [h1 | e h1 | h1];
    [contradiction | | discriminate].
  intros [= <- <-]. simpl. eauto.
Qed.

End WaitFacts.

Section WaitExamples.
Import Metahelm InstallCases InstallNotions.

Lemma callback_blocks_install_witness :
  let ops := apply_options [WithInstallCallback (Some (fun _ _ => Abort))] in
  let redis := chart "redis" [] IgnorePodHealth in
  let w := {| history := []; rmap := ∅ |} in
  exists r w',
    af (H := decls) (clients (Some 1) 1) ops [redis] {[ "redis" := 0%nat ]} 1 "redis" w
    = dag.Visited r w'
    /\ is_Some r /\ rmap w' = rmap w
    /\ exists pre, history w' = (pre ++ history w)%list /\ Forall callback_effect pre.
Proof.
  intros ops redis w. eexists _, _. split; [vm_compute; reflexivity |].
  eapply (callback_blocks_install (H := decls) (clients (Some 1) 1) ops [redis]
            {[ "redis" := 0%nat ]} 1 "redis" w);
    [reflexivity | vm_compute; reflexivity].
Defined.

End WaitExamples.

(** ** What a successful [Install] has done *)

Section WalkInvariants.
Import dag.
Context {W : Type}.
Variable g : gmap string (list string).
Variable visitor : string -> W -> visit W.

(** A property of the shared state that every return of the visitor
    keeps holds along a run. *)
Lemma walk_run_shared (P : W -> Prop) :
  (forall n w r w', visitor n w = Visited r w' -> P w -> P w') ->
  forall evs st st',
    walk_run g visitor st evs = Some st' -> P (shared st) -> P (shared st').
Proof.
  intros Hkeep. induction evs as [| ev rest IH]; intros st st' Hrun HP; simpl in Hrun.
  - now injection Hrun as <-.
  - destruct (walk_step g visitor st ev) as [st1 |] eqn:Hstep; [| discriminate].
    apply (IH st1 st' Hrun). clear IH Hrun.
    unfold walk_step in Hstep. destruct (returned g st); [discriminate |].
    destruct ev as [n | n r |].
    + destruct (ready g st n); [| discriminate]. now injection Hstep as <-.
    + destruct (bool_decide (n ∈ in_flight st)); [| discriminate].
      destruct (visitor n (shared st)) as [r' w' |] eqn:Hv; [| discriminate].
      destruct (bool_decide (r = r')); [| discriminate].
      injection Hstep as <-. simpl. eauto.
    + now injection Hstep as <-.
Qed.

(** A property that a successful return of the visitor on [n]
    establishes for [n], and that every return keeps, holds of every
    node that has succeeded. *)
Lemma walk_run_succeeded (Q : string -> W -> Prop) :
  (forall n w w', visitor n w = Visited None w' -> Q n w') ->
  (forall n k w r w', visitor n w = Visited r w' -> Q k w -> Q k w') ->
  forall evs st st',
    walk_run g visitor st evs = Some st' ->
    (forall n, n ∈ succeeded st -> Q n (shared st)) ->
    forall n, n ∈ succeeded st' -> Q n (shared st').
Proof.
  intros Hest Hkeep. induction evs as [| ev rest IH]; intros st st' Hrun HQ; simpl in Hrun.
  - now injection Hrun as <-.
  - destruct (walk_step g visitor st ev) as [st1 |] eqn:Hstep; [| discriminate].
    apply (IH st1 st' Hrun). clear IH Hrun.
    unfold walk_step in Hstep. destruct (returned g st); [discriminate |].
    destruct ev as [n | n r |].
    + destruct (ready g st n); [| discriminate]. injection Hstep as <-. exact HQ.
    + destruct (bool_decide (n ∈ in_flight st)); [| discriminate].
      destruct (visitor n (shared st)) as [r' w' |] eqn:Hv; [| discriminate].
      destruct (bool_decide (r = r')) eqn:Hr; [| discriminate].
      apply bool_decide_eq_true in Hr. subst r'.
      injection Hstep as <-. simpl. intros k Hk.
      destruct r as [e |]; [eauto |].
      apply elem_of_union in Hk as [Hk | Hk]; [| eauto].
      apply elem_of_singleton in Hk as ->. eauto.
    + injection Hstep as <-. exact HQ.
Qed.

(** A walk that returns nil has seen every node succeed. *)
Lemma Walk_nil w evs w' :
  Walk g visitor w evs = Some (None, w') ->
  exists st, walk_run g visitor (walk_init w) evs = Some st
             /\ shared st = w' /\ dom g ⊆ succeeded st.
Proof.
  unfold Walk. destruct (walk_run g visitor (walk_init w) evs) as [st |]; [| discriminate].
  destruct (returned g st) eqn:Hret; [| discriminate].
  intros [= Hh <-]. exists st. repeat split.
  unfold returned in Hret. rewrite Hh in Hret.
  apply andb_true_iff in Hret as [_ Hret].
  apply orb_true_iff in Hret as [Hret | Hret].
  - apply bool_decide_eq_true in Hret. congruence.
  - now apply bool_decide_eq_true in Hret.
Qed.

End WalkInvariants.

Section InstallSuccess.
Import Metahelm InstallCases InstallNotions.
Context `{ChartDecls}.

Lemma Name_default c : Name (with_default_timeout c) = Name c.
Proof. unfold with_default_timeout. now destruct (WaitTimeout c =? 0). Qed.

Lemma Title_default c : Title (with_default_timeout c) = Title c.
Proof. unfold with_default_timeout. now destruct (WaitTimeout c =? 0). Qed.

(** The preparation loop writes [cmap] only under the names of the
    charts it still has to visit. *)
Lemma prepare_cmap_other todo : forall i charts cmap objs cs cmap' objs' (n : string),
  (i + todo = length charts)%nat ->
  prepare todo i charts cmap objs = Prepared cs cmap' objs' ->
  n ∉ map Name (drop i charts) ->
  cmap' !! n = cmap !! n.
Proof.
  induction todo as [| todo IH]; intros i charts cmap objs cs cmap' objs' n Hlen.
  - simpl. now intros [= <- <- <-].
  - destruct (charts !! i) as [c |] eqn:Hi.
    2:{ apply lookup_ge_None in Hi. lia. }
    destruct (acceptable c) eqn:Ha.
    + rewrite (prepare_step _ _ _ _ _ _ Hi Ha). intros Hp Hn.
      rewrite (drop_S _ _ _ Hi) in Hn. simpl in Hn.
      apply not_elem_of_cons in Hn as [Hne Hn].
      assert (Hlen' : (S i + todo = length (<[i := with_default_timeout c]> charts))%nat)
        by (rewrite length_insert; lia).
      rewrite (IH _ _ _ _ _ _ _ n Hlen' Hp)
        by (rewrite drop_insert_lt by lia; exact Hn).
      now apply lookup_insert_ne.
    + destruct (prepare_unacceptable todo i charts cmap objs c Hi Ha) as [e ->].
      discriminate.
Qed.

(** With pairwise distinct names, [cmap] points every name to the
    index of its chart. *)
Lemma prepare_cmap_index todo : forall i charts cmap objs cs cmap' objs' j c,
  (i + todo = length charts)%nat ->
  prepare todo i charts cmap objs = Prepared cs cmap' objs' ->
  NoDup (map Name (drop i charts)) ->
  (i <= j)%nat -> charts !! j = Some c ->
  cmap' !! Name c = Some j.
Proof.
  induction todo as [| todo IH]; intros i charts cmap objs cs cmap' objs' j c Hlen.
  - intros _ _ Hij Hj. apply lookup_lt_Some in Hj. lia.
  - destruct (charts !! i) as [ci |] eqn:Hi.
    2:{ apply lookup_ge_None in Hi. lia. }
    destruct (acceptable ci) eqn:Ha.
    + rewrite (prepare_step _ _ _ _ _ _ Hi Ha). intros Hp Hnd Hij Hj.
      rewrite (drop_S _ _ _ Hi) in Hnd. simpl in Hnd.
      apply NoDup_cons in Hnd as [Hfresh Hnd].
      assert (Hlen' : (S i + todo = length (<[i := with_default_timeout ci]> charts))%nat)
        by (rewrite length_insert; lia).
      destruct (decide (j = i)) as [-> | Hne].
      * assert (c = ci) by congruence. subst ci.
        rewrite (prepare_cmap_other _ _ _ _ _ _ _ _ (Name c) Hlen' Hp)
          by (rewrite drop_insert_lt by lia; exact Hfresh).
        apply lookup_insert_eq.
      * apply (IH _ _ _ _ _ _ _ j c Hlen' Hp).
        -- rewrite drop_insert_lt by lia. exact Hnd.
        -- lia.
        -- rewrite list_lookup_insert_ne by lia. exact Hj.
    + destruct (prepare_unacceptable todo i charts cmap objs ci Hi Ha) as [e ->].
      discriminate.
Qed.

(** How [Install] comes to its walk. *)
Lemma Install_setup_walking h charts opts ops cs cmap og w :
  Install_setup h charts opts = Walking ops cs cmap og w ->
  ops = with_default_namespace (apply_options opts)
  /\ w = {| history := WalkStarted :: GraphBuilt :: h; rmap := ∅ |}
  /\ exists objs, prepare (length charts) 0 charts ∅ [] = Prepared cs cmap objs
                  /\ dag.Build objs = inl og.
Proof.
  unfold Install_setup. destruct (length charts =? 0)%nat; [discriminate |].
  destruct (prepare (length charts) 0 charts ∅ []) as [? ? | cs0 cm objs]; [discriminate |].
  destruct (dag.Build objs) as [og' | e] eqn:Hb; [| discriminate].
  intros [= <- <- <- <- <-]. eauto.
Qed.

Lemma Install_success_walk m turns evs h charts opts r :
  Install m turns evs h charts opts = Some r -> ret_err r = None ->
  exists ops cs cmap og w w',
    Install_setup h charts opts = Walking ops cs cmap og w
    /\ dag.Walk og (af m ops cs cmap turns) w evs = Some (None, w')
    /\ ret_rmap r = Some (rmap w').
Proof.
  unfold Install. intros Hr Herr.
  destruct (Install_setup h charts opts) as [r0 | ops cs cmap og w] eqn:Hs.
  - injection Hr as <-. exfalso. unfold Install_setup in Hs.
    destruct (length charts =? 0)%nat; [injection Hs as <-; discriminate |].
    destruct (prepare (length charts) 0 charts ∅ []) as [? ? | cs0 cm objs];
      [injection Hs as <-; discriminate |].
    destruct (dag.Build objs); [discriminate | injection Hs as <-; discriminate].
  - destruct (dag.Walk og _ w evs) as [[[e |] w'] |] eqn:Hw; try discriminate;
      injection Hr as <-; [discriminate |].
    exists ops, cs, cmap, og, w, w'. auto.
Qed.

(** A return of the visitor keeps the releases recorded so far. *)
Lemma af_keeps_releases m ops cs cmap turns obj w r w' (k : string) :
  af m ops cs cmap turns obj w = dag.Visited r w' ->
  is_Some (rmap w !! k) -> is_Some (rmap w' !! k).
Proof.
  unfold af. destruct (cmap !! obj ≫= (cs !!.)) as [c |]; [| discriminate].
  destruct (callback_loop turns (installCallback ops) c (history w)) as [h1 | e h1 | h1];
    [| now intros [= <- <-] | discriminate].
  destruct (InstallRelease m h1 _ _ _) as [name | e]; [| now intros [= <- <-]].
  destruct (waitForChart m c (k8sNamespace ops) _) as [err h2].
  intros [= <- <-] Hk. simpl.
  destruct (decide (Title c = k)) as [-> | Hne];
    [rewrite lookup_insert_eq; eauto | now rewrite lookup_insert_ne].
Qed.

(** A successful return of the visitor has recorded the release of its
    chart, and there was no callback. *)
Lemma af_success m ops cs cmap turns obj w w' :
  af m ops cs cmap turns obj w = dag.Visited None w' ->
  installCallback ops = None
  /\ exists c, cmap !! obj ≫= (cs !!.) = Some c /\ is_Some (rmap w' !! Title c).
Proof.
  unfold af. destruct (cmap !! obj ≫= (cs !!.)) as [c |]; [| discriminate].
  destruct (installCallback ops) as [cb |] eqn:Hcb.
  { pose proof (callback_loop_never_breaks turns cb c (history w)) as Hl.
    destruct (callback_loop turns (Some cb) c (history w)); [contradiction | |]; discriminate. }
  destruct (callback_loop turns None c (history w)) as [h1 | e h1 | h1]; try discriminate.
  destruct (InstallRelease m h1 _ _ _) as [name | e]; [| discriminate].
  destruct (waitForChart m c (k8sNamespace ops) _) as [err h2].
  intros [= -> <-]. split; [reflexivity |]. exists c. split; [reflexivity |].
  simpl. rewrite lookup_insert_eq. eauto.
Qed.

(** Every release the visitor records is recorded under the title of a
    chart. *)
Lemma af_records_titles m ops cs cmap turns obj w r w' :
  af m ops cs cmap turns obj w = dag.Visited r w' ->
  (forall k : string, is_Some (rmap w !! k) -> k ∈ map Title cs) ->
  forall k : string, is_Some (rmap w' !! k) -> k ∈ map Title cs.
Proof.
  unfold af. destruct (cmap !! obj ≫= (cs !!.)) as [c |] eqn:Hc; [| discriminate].
  destruct (callback_loop turns (installCallback ops) c (history w)) as [h1 | e h1 | h1];
    [| now intros [= <- <-] | discriminate].
  destruct (InstallRelease m h1 _ _ _) as [name | e]; [| now intros [= <- <-]].
  destruct (waitForChart m c (k8sNamespace ops) _) as [err h2].
  intros [= <- <-] Hall k. simpl.
  destruct (decide (Title c = k)) as [<- | Hne]; [| rewrite lookup_insert_ne by exact Hne; auto].
  intros _. destruct (cmap !! obj) as [i |]; [| discriminate]. simpl in Hc.
  apply list_elem_of_fmap_2. eapply list_elem_of_lookup_2. exact Hc.
Qed.

(** X14. When [Install] of charts with pairwise distinct names returns
    without error, the release map it returns has an entry for the title
    of every chart, and for nothing else. *)
Theorem Install_success_releases (m : Manager) (turns : nat) (evs : list dag.event)
    (h : list Effect) (charts : list Chart) (opts : list InstallOption) (r : returns) :
  NoDup (map Name charts) ->
  Install m turns evs h charts opts = Some r ->
  ret_err r = None ->
  exists rm, ret_rmap r = Some rm
             /\ forall t : string, is_Some (rm !! t) <-> t ∈ map Title charts.
Proof.
  intros Hnd Hr Herr.
  destruct (Install_success_walk _ _ _ _ _ _ _ Hr Herr)
    as (ops & cs & cmap & og & w & w' & Hs & Hw & Hrm).
  exists (rmap w'). split; [exact Hrm |].
  destruct (Install_setup_walking _ _ _ _ _ _ _ _ Hs) as (_ & Hw0 & objs & Hp & _).
  destruct (prepare_accepts (length charts) 0 charts ∅ [] cs cmap objs eq_refl Hp)
    as [Hcs _].
  rewrite take_0, drop_0 in Hcs. simpl in Hcs.
  assert (Htitles : map Title cs = map Title charts).
  { subst cs. rewrite <- list_fmap_compose. apply list_fmap_ext.
    intros i c _. apply Title_default. }
  apply Walk_nil in Hw as (st & Hrun & <- & Hdom).
  intros t. split.
  - rewrite <- Htitles.
    apply (walk_run_shared og (af m ops cs cmap turns)
             (fun w => forall k : string, is_Some (rmap w !! k) -> k ∈ map Title cs)
             (fun n w r w' Hv => af_records_titles _ _ _ _ _ _ _ _ _ Hv)
             evs _ st Hrun).
    subst w. simpl. intros k Hk. rewrite lookup_empty in Hk. now destruct Hk.
  - intros Ht. apply list_elem_of_fmap in Ht as (c & -> & Hc).
    apply list_elem_of_lookup in Hc as [j Hj].
    pose proof (prepare_cmap_index (length charts) 0 charts ∅ [] cs cmap objs j c
                  eq_refl Hp Hnd (Nat.le_0_l j) Hj) as Hcm.
    assert (Hn : Name c ∈ dag.succeeded st).
    { apply Hdom, elem_of_dom.
      rewrite (Install_setup_graph _ _ _ _ _ _ _ _ c Hnd Hs); [eauto |].
      eapply list_elem_of_lookup_2; eauto. }
    pose proof (walk_run_succeeded og (af m ops cs cmap turns)
                  (fun n w => exists c, cmap !! n ≫= (cs !!.) = Some c
                                        /\ is_Some (rmap w !! Title c))
                  (fun n w w' Hv => proj2 (af_success _ _ _ _ _ _ _ _ Hv))
                  (fun n k w r w' Hv HQ =>
                     match HQ with
                     | ex_intro _ c0 (conj Hc0 Hk0) =>
                         ex_intro _ c0 (conj Hc0 (af_keeps_releases _ _ _ _ _ _ _ _ _ _ Hv Hk0))
                     end)
                  evs _ st Hrun) as HQ.
    destruct (HQ ltac:(intros n Hin; simpl in Hin; now apply not_elem_of_empty in Hin)
                 (Name c) Hn) as (c' & Hc' & Hk).
    rewrite Hcm in Hc'. simpl in Hc'. subst cs.
    rewrite list_lookup_fmap, Hj in Hc'. injection Hc' as <-.
    now rewrite Title_default in Hk.
Qed.

(** X15. When [Install] returns without error, no install callback was
    set. *)
Theorem Install_success_no_callback (m : Manager) (turns : nat) (evs : list dag.event)
    (h : list Effect) (charts : list Chart) (opts : list InstallOption) (r : returns) :
  Install m turns evs h charts opts = Some r ->
  ret_err r = None ->
  installCallback (apply_options opts) = None.
Proof.
  intros Hr Herr.
  destruct (Install_success_walk _ _ _ _ _ _ _ Hr Herr)
    as (ops & cs & cmap & og & w & w' & Hs & Hw & Hrm).
  destruct (Install_setup_walking _ _ _ _ _ _ _ _ Hs) as (Hops & Hw0 & objs & Hp & Hb).
  assert (Hcb : installCallback ops = installCallback (apply_options opts)).
  { subst ops. unfold with_default_namespace.
    now destruct (String.eqb (k8sNamespace (apply_options opts)) ""). }
  rewrite <- Hcb.
  destruct (installCallback ops) as [cb |] eqn:Hc; [exfalso | reflexivity].
  apply Walk_nil in Hw as (st & Hrun & _ & Hdom).
  pose proof (walk_run_succeeded og (af m ops cs cmap turns) (fun _ _ => False)
                (fun n w w' Hv => af_with_callback_never_succeeds _ _ _ _ _ _ _ _ _ Hc Hv)
                (fun n k w r w' _ HF => HF) evs _ st Hrun
                ltac:(intros n Hin; simpl in Hin; now apply not_elem_of_empty in Hin)) as Hnone.
  destruct charts as [| c0 charts']; [discriminate Hs |].
  apply Build_adjacency in Hb. subst og.
  apply prepare_objs in Hp; [| reflexivity]. simpl in Hp. subst objs.
  apply (Hnone (Name c0)), Hdom, elem_of_dom.
  unfold dag.adjacency. simpl.
  assert (Hin : forall objs (g : gmap string (list string)) (n : string),
            is_Some (g !! n) ->
            is_Some (foldl (fun g o => <[dag.go_Name o := dag.go_Dependencies o]> g) g objs !! n)).
  { induction objs as [| o objs IH]; intros g n Hn; simpl; [exact Hn |].
    apply IH. destruct (decide (dag.go_Name o = n)) as [-> | Hne'];
      [rewrite lookup_insert_eq; eauto | now rewrite lookup_insert_ne]. }
  apply Hin. rewrite lookup_insert_eq. eauto.
Qed.

End InstallSuccess.

Section InstallSuccessExamples.
Import Metahelm InstallCases InstallNotions.

Lemma Install_success_releases_witness :
  exists r rm,
    Install (H := decls) (clients (Some 1) 1) 1 test_run [] testCharts [] = Some r
    /\ ret_rmap r = Some rm
    /\ forall t : string, is_Some (rm !! t) <-> t ∈ map Title testCharts.
Proof.
  assert (Hrun : exists r,
             Install (H := decls) (clients (Some 1) 1) 1 test_run [] testCharts [] = Some r
             /\ ret_err r = None)
    by (eexists; split; vm_compute; reflexivity).
  destruct Hrun as (r & Hr & Herr).
  assert (Hnd : NoDup (map (Name (H := decls)) testCharts))
    by (apply (bool_decide_unpack _); vm_compute; exact I).
  destruct (Install_success_releases (H := decls) _ _ _ _ _ _ r Hnd Hr Herr)
    as (rm & Hrm & Ht).
  exists r, rm. auto.
Defined.

Lemma Install_success_no_callback_witness :
  exists r,
    Install (H := decls) (clients (Some 1) 1) 1 test_run [] testCharts
            [WithK8sNamespace "foo"] = Some r
    /\ installCallback (apply_options [WithK8sNamespace "foo"]) = None.
Proof.
  assert (Hrun : exists r,
             Install (H := decls) (clients (Some 1) 1) 1 test_run [] testCharts
                     [WithK8sNamespace "foo"] = Some r
             /\ ret_err r = None)
    by (eexists; split; vm_compute; reflexivity).
  destruct Hrun as (r & Hr & Herr).
  exists r. split; [exact Hr |].
  exact (Install_success_no_callback (H := decls) _ _ _ _ _ _ r Hr Herr).
Defined.

End InstallSuccessExamples.

(** ** The command line *)

Section CommandLine.
Import Metahelm InstallNotions Cmd CmdCases.


Lemma empty_dependency_none deps : forall i,
  empty_dependency i deps = None <-> Forall (fun d => d <> "") deps.
Proof.
  induction deps as [| d rest IH]; intros i; simpl.
  - split; [constructor | reflexivity].
  - destruct d as [| a d']; simpl.
    + split; [discriminate |]. intros Hall. apply Forall_cons in Hall as [Hd _]. congruence.
    + rewrite IH. split.
      * intros Hall. constructor; [discriminate | exact Hall].
      * intros Hall. now apply Forall_cons in Hall as [_ Hall].
Qed.

(** What an accepted definition says of its path and its timeout. *)
Lemma validateChart_none_inv (sys : System) (c : ChartDefinition) :
  validateChart sys c = None ->
  cd_Path c <> ""
  /\ (cd_Timeout c <> "" -> exists d, time_ParseDuration sys (cd_Timeout c) = inl d).
Proof.
  unfold validateChart.
  destruct (String.eqb (cd_Name c) ""); [discriminate |].
  destruct (String.eqb_spec (cd_Path c) "") as [Hp | Hp]; [discriminate |].
  destruct (os_Stat sys (cd_Path c)); [discriminate |].
  destruct (if String.eqb (cd_ValuesPath c) "" then None else _); [discriminate |].
  destruct (String.eqb_spec (cd_Timeout c) "") as [Ht | Ht]; [intros _; tauto |].
  destruct (time_ParseDuration sys (cd_Timeout c)) as [d | e]; [eauto | discriminate].
Qed.

(** X17. [validateChart] accepts a definition exactly when its name and its
    path are not empty, the path exists, the values path exists if there
    is one, the timeout parses if there is one, and no dependency is the
    empty string. *)
Theorem validateChart_accepts (sys : System) (c : ChartDefinition) :
  validateChart sys c = None <->
  cd_Name c <> "" /\ cd_Path c <> "" /\ os_Stat sys (cd_Path c) = None
  /\ (cd_ValuesPath c <> "" -> os_Stat sys (cd_ValuesPath c) = None)
  /\ (cd_Timeout c <> "" -> exists d, time_ParseDuration sys (cd_Timeout c) = inl d)
  /\ Forall (fun d => d <> "") (cd_Dependencies c).
Proof.
  rewrite <- (empty_dependency_none (cd_Dependencies c) 0).
  unfold validateChart.
  destruct (String.eqb_spec (cd_Name c) "") as [Hn | Hn];
    [split; [discriminate | tauto] |].
  destruct (String.eqb_spec (cd_Path c) "") as [Hp | Hp];
    [split; [discriminate | tauto] |].
  destruct (os_Stat sys (cd_Path c)) as [e |];
    [split; [discriminate | intros (_ & _ & ? & _); discriminate] |].
  assert (Hvalues :
    match (if String.eqb (cd_ValuesPath c) "" then None
           else os_Stat sys (cd_ValuesPath c)) with
    | Some _ => ~ (cd_ValuesPath c <> "" -> os_Stat sys (cd_ValuesPath c) = None)
    | None => cd_ValuesPath c <> "" -> os_Stat sys (cd_ValuesPath c) = None
    end).
  { destruct (String.eqb_spec (cd_ValuesPath c) "") as [Hv | Hv]; [tauto |].
    destruct (os_Stat sys (cd_ValuesPath c)); [| tauto].
    intros Hs. specialize (Hs Hv). discriminate. }
  destruct (if String.eqb (cd_ValuesPath c) "" then None
            else os_Stat sys (cd_ValuesPath c)) as [e |];
    [split; [discriminate | tauto] |].
  assert (Htimeout :
    match (if String.eqb (cd_Timeout c) "" then None
           else match time_ParseDuration sys (cd_Timeout c) with
                | inr e => Some e
                | inl _ => None
                end) with
    | Some _ => ~ (cd_Timeout c <> "" ->
                   exists d, time_ParseDuration sys (cd_Timeout c) = inl d)
    | None => cd_Timeout c <> "" -> exists d, time_ParseDuration sys (cd_Timeout c) = inl d
    end).
  { destruct (String.eqb_spec (cd_Timeout c) "") as [Ht | Ht]; [tauto |].
    destruct (time_ParseDuration sys (cd_Timeout c)) as [d | e]; [eauto |].
    intros Hd. destruct (Hd Ht) as [d Hd']. discriminate. }
  destruct (if String.eqb (cd_Timeout c) "" then None
            else match time_ParseDuration sys (cd_Timeout c) with
                 | inr e => Some e
                 | inl _ => None
                 end) as [e |];
    [split; [discriminate | tauto] |].
  destruct (empty_dependency 0 (cd_Dependencies c)) as [i |].
  - split; [discriminate | intros (_ & _ & _ & _ & _ & ?); discriminate].
  - tauto.
Qed.

Lemma validateChart_accepts_witness :
  validateChart (system test_definitions)
                (definition "toplevel" "toplevel" "10m" true false ["someservice"; "redis"])
  = None.
Proof.
  apply (proj2 (validateChart_accepts (system test_definitions)
                  (definition "toplevel" "toplevel" "10m" true false
                              ["someservice"; "redis"]))).
  repeat split; try discriminate; try reflexivity.
  - intros _. eexists. reflexivity.
  - repeat constructor; discriminate.
Defined.

Lemma expandFilePath_nonempty sys p base :
  (forall q, path_Clean sys q <> "") -> base <> "" -> expandFilePath sys p base <> "".
Proof.
  intros Hclean Hbase. unfold expandFilePath.
  destruct (String.prefix "/" p) eqn:Hp; simpl.
  - destruct p; [simpl in Hp; discriminate Hp | intros Hq; discriminate Hq].
  - destruct (String.eqb_spec base "") as [-> | _]; [contradiction | apply Hclean].
Qed.

Lemma validate_from_none sys charts : forall i,
  validate_from sys i charts = None <-> Forall (fun c => validateChart sys c = None) charts.
Proof.
  induction charts as [| c rest IH]; intros i; simpl.
  - split; [constructor | reflexivity].
  - destruct (validateChart sys c) as [e |] eqn:Hv.
    + split; [discriminate |]. intros Hall. apply Forall_cons in Hall as [Hc _]. congruence.
    + rewrite IH. split.
      * intros Hall. now constructor.
      * intros Hall. now apply Forall_cons in Hall as [_ Hall].
Qed.

(** X18. What [readAndValidateFile] returns without error is not empty; with
    [validate] set every definition passes [validateChart]; and, since a
    cleaned path is never empty and neither is the directory of a file,
    no definition is left with an empty path or an empty values path: a
    values path that was not given has become the base directory. *)
Theorem readAndValidateFile_returns (sys : System) (f : string) (validate : bool)
    (cds : list ChartDefinition) :
  (forall q, path_Clean sys q <> "") ->
  filepath_Dir sys f <> "" ->
  readAndValidateFile sys f validate = inl cds ->
  cds <> []
  /\ (validate = true -> Forall (fun c => validateChart sys c = None) cds)
  /\ Forall (fun c => cd_Path c <> "" /\ cd_ValuesPath c <> "") cds
  /\ exists raw b, ioutil_ReadFile sys f = inl b /\ yaml_Unmarshal sys b = inl raw
       /\ map cd_Name cds = map cd_Name raw
       /\ Forall2 (fun c0 c => cd_ValuesPath c0 = "" ->
                     cd_ValuesPath c = path_Clean sys (filepath_Dir sys f +:+ "/")) raw cds.
Proof.
  intros Hclean Hdir. unfold readAndValidateFile.
  destruct (ioutil_ReadFile sys f) as [b | e]; [| discriminate].
  destruct (yaml_Unmarshal sys b) as [raw | e] eqn:Hyaml; [| discriminate].
  destruct raw as [| c0 raw']; [discriminate |].
  replace (length (c0 :: raw') =? 0)%nat with false by reflexivity.
  assert (Hraw : exists raw b0, @inl _ error b = inl b0 /\ yaml_Unmarshal sys b0 = inl raw
                   /\ raw = c0 :: raw') by eauto.
  clear Hyaml.
  set (expanded := expandChartFilesPath sys (c0 :: raw') (filepath_Dir sys f)).
  assert (Hpaths : Forall (fun c => cd_Path c <> "" /\ cd_ValuesPath c <> "") expanded).
  { unfold expanded, expandChartFilesPath. apply Forall_map, Forall_forall.
    intros c _. simpl. split; now apply expandFilePath_nonempty. }
  assert (Hnames : map cd_Name expanded = map cd_Name (c0 :: raw')).
  { unfold expanded, expandChartFilesPath. rewrite map_map. reflexivity. }
  assert (Hvalues : Forall2 (fun c0 c => cd_ValuesPath c0 = "" ->
                     cd_ValuesPath c = path_Clean sys (filepath_Dir sys f +:+ "/"))
                    (c0 :: raw') expanded).
  { unfold expanded, expandChartFilesPath. apply Forall2_fmap_r, Forall_Forall2_diag,
      Forall_forall. intros c _ Hv. simpl. rewrite Hv. unfold expandFilePath. simpl.
    destruct (String.eqb_spec (filepath_Dir sys f) "") as [He | _]; [contradiction |].
    reflexivity. }
  assert (Hne : expanded <> []) by (unfold expanded; discriminate).
  destruct validate.
  - destruct (validate_from sys 0 expanded) as [e |] eqn:Hv; [discriminate |].
    apply validate_from_none in Hv. intros [= <-].
    destruct Hraw as (raw & b0 & Hb & Hy & ->).
    repeat split; try assumption; eauto 10.
  - intros [= <-]. destruct Hraw as (raw & b0 & Hb & Hy & ->).
    repeat split; try assumption; [discriminate | eauto 10].
Qed.

Lemma readAndValidateFile_returns_witness :
  exists cds,
    readAndValidateFile (system (take 2 test_definitions)) "charts.yaml" true = inl cds
    /\ map cd_ValuesPath cds = ["."; "."]
    /\ Forall (fun c => cd_Path c <> "" /\ cd_ValuesPath c <> "") cds.
Proof.
  eexists. split; [vm_compute; reflexivity |]. split; [reflexivity |].
  eapply (readAndValidateFile_returns (system (take 2 test_definitions)) "charts.yaml" true).
  - intros q. unfold system, clean. simpl.
    destruct (String.eqb q "" || String.eqb q "./") eqn:Hq; [discriminate |].
    apply orb_false_iff in Hq as [Hq _]. now apply String.eqb_neq in Hq.
  - discriminate.
  - vm_compute. reflexivity.
Defined.

(** X19. The health indication of a converted chart, in both revisions:
    [IgnorePodHealth] exactly when there is no primary deployment (or,
    in the later revision, when [WaitForHelm] is set), otherwise
    [AllPodsHealthy] or [AtLeastOnePodHealthy] as [WaitForAllPods] says;
    in the later revision [WaitForHelm] also clears the deployment to
    wait for. *)
Theorem chartDefToChart_indication (sys : System) (cd : ChartDefinition) :
  (forall c, chartDefToChart sys cd = inl c ->
     WaitUntilDeployment c = cd_PrimaryDeployment cd
     /\ DeploymentHealthIndication c
        = if String.eqb (cd_PrimaryDeployment cd) "" then IgnorePodHealth
          else if cd_WaitForAllPods cd then AllPodsHealthy else AtLeastOnePodHealthy)
  /\ (forall c, chartDefToChart_helm sys cd = inl c ->
        WaitUntilHelmSaysItsReady c = cd_WaitForHelm cd
        /\ WaitUntilDeployment c
           = (if cd_WaitForHelm cd then "" else cd_PrimaryDeployment cd)
        /\ DeploymentHealthIndication c
           = if cd_WaitForHelm cd || String.eqb (cd_PrimaryDeployment cd) ""
             then IgnorePodHealth
             else if cd_WaitForAllPods cd then AllPodsHealthy else AtLeastOnePodHealthy).
Proof.
  split; intros c.
  - unfold chartDefToChart.
    destruct (if String.eqb (cd_ValuesPath cd) "" then inl [] else _) as [b | e];
      [| discriminate].
    destruct (String.eqb (cd_PrimaryDeployment cd) ""); simpl.
    + intros [= <-]. auto.
    + destruct (String.eqb (cd_Timeout cd) ""); simpl.
      * intros [= <-]. auto.
      * destruct (time_ParseDuration sys (cd_Timeout cd)); [| discriminate].
        intros [= <-]. auto.
  - unfold chartDefToChart_helm.
    destruct (if String.eqb (cd_ValuesPath cd) "" then inl [] else _) as [b | e];
      [| discriminate].
    destruct (if negb (String.eqb (cd_Timeout cd) "") then _ else inl 0) as [wt | e];
      [| discriminate].
    intros [= <-]. simpl.
    destruct (cd_WaitForHelm cd), (String.eqb (cd_PrimaryDeployment cd) ""); auto.
Qed.

Lemma chartDefToChart_indication_witness :
  let cd := definition "redis" "redis" "" false true [] in
  exists c, chartDefToChart_helm (system test_definitions) cd = inl c
            /\ WaitUntilDeployment c = "" /\ DeploymentHealthIndication c = IgnorePodHealth.
Proof.
  intros cd. eexists. split; [reflexivity |].
  destruct (proj2 (chartDefToChart_indication (system test_definitions) cd) _ eq_refl)
    as (_ & Hd & Hi).
  split; [exact Hd | exact Hi].
Defined.

(** X20. A definition that [validateChart] accepts is converted unless its
    values file cannot be read, in both revisions, and the chart it is
    converted to is one the preparation loop of [Install] lets through. *)
Theorem validated_definition_converts (sys : System) (cd : ChartDefinition) :
  validateChart sys cd = None ->
  (forall convert, convert = chartDefToChart \/ convert = chartDefToChart_helm ->
     match convert sys cd with
     | inl c => acceptable c = true /\ Title c = cd_Name cd
                /\ DependencyList c = cd_Dependencies cd
     | inr e => cd_ValuesPath cd <> ""
                /\ exists e0, ioutil_ReadFile sys (cd_ValuesPath cd) = inr e0
                              /\ e = "error reading values file: " +:+ e0
     end).
Proof.
  intros Hv. apply validateChart_none_inv in Hv as (Hp & Ht).
  assert (Hloc : negb (String.eqb (cd_Path cd) "") = true).
  { destruct (String.eqb_spec (cd_Path cd) ""); [contradiction | reflexivity]. }
  intros convert [-> | ->].
  - unfold chartDefToChart.
    destruct (String.eqb_spec (cd_ValuesPath cd) "") as [Hvp | Hvp].
    + destruct (String.eqb (cd_PrimaryDeployment cd) ""); simpl.
      * unfold acceptable. simpl. rewrite Hloc. auto.
      * destruct (String.eqb_spec (cd_Timeout cd) "") as [Hto | Hto]; simpl.
        -- unfold acceptable. simpl. rewrite Hloc. now destruct (cd_WaitForAllPods cd).
        -- destruct (Ht Hto) as [d ->]. unfold acceptable. simpl. rewrite Hloc.
           now destruct (cd_WaitForAllPods cd).
    + destruct (ioutil_ReadFile sys (cd_ValuesPath cd)) as [b | e0]; [| eauto].
      destruct (String.eqb (cd_PrimaryDeployment cd) ""); simpl.
      * unfold acceptable. simpl. rewrite Hloc. auto.
      * destruct (String.eqb_spec (cd_Timeout cd) "") as [Hto | Hto]; simpl.
        -- unfold acceptable. simpl. rewrite Hloc. now destruct (cd_WaitForAllPods cd).
        -- destruct (Ht Hto) as [d ->]. unfold acceptable. simpl. rewrite Hloc.
           now destruct (cd_WaitForAllPods cd).
  - unfold chartDefToChart_helm.
    assert (Hwt : exists wt, (if negb (String.eqb (cd_Timeout cd) "")
                              then time_ParseDuration sys (cd_Timeout cd) else inl 0)
                             = inl wt).
    { destruct (String.eqb_spec (cd_Timeout cd) "") as [Hto | Hto]; simpl; [eauto |].
      destruct (Ht Hto) as [d ->]. eauto. }
    destruct Hwt as [wt ->].
    destruct (String.eqb_spec (cd_ValuesPath cd) "") as [Hvp | Hvp].
    + unfold acceptable. simpl. rewrite Hloc.
      now destruct (cd_WaitForHelm cd), (String.eqb (cd_PrimaryDeployment cd) ""),
        (cd_WaitForAllPods cd).
    + destruct (ioutil_ReadFile sys (cd_ValuesPath cd)) as [b | e0]; [| eauto].
      unfold acceptable. simpl. rewrite Hloc.
      now destruct (cd_WaitForHelm cd), (String.eqb (cd_PrimaryDeployment cd) ""),
        (cd_WaitForAllPods cd).
Qed.

Lemma validated_definition_converts_witness :
  let cd := definition "toplevel" "toplevel" "10m" true false ["someservice"; "redis"] in
  match chartDefToChart (system test_definitions) cd with
  | inl c => acceptable c = true /\ Title c = cd_Name cd
             /\ DependencyList c = cd_Dependencies cd
  | inr e => cd_ValuesPath cd <> ""
             /\ exists e0, ioutil_ReadFile (system test_definitions) (cd_ValuesPath cd) = inr e0
                           /\ e = "error reading values file: " +:+ e0
  end.
Proof.
  intros cd.
  apply (validated_definition_converts (system test_definitions) cd eq_refl chartDefToChart).
  now left.
Defined.

Lemma cd2c_from_converts convert cds : forall acc cs,
  cd2c_from convert acc cds = inl cs <->
  exists new, cs = (acc ++ new)%list /\ Forall2 (fun cd c => convert cd = inl c) cds new.
Proof.
  induction cds as [| cd rest IH]; intros acc cs; simpl.
  - split.
    + intros [= <-]. exists []. split; [now rewrite app_nil_r | constructor].
    + intros (new & -> & Hn). apply Forall2_nil_inv_l in Hn as ->. now rewrite app_nil_r.
  - destruct (convert cd) as [c | e] eqn:Hc.
    + rewrite IH. split.
      * intros (new & -> & Hn). exists (c :: new).
        split; [now rewrite <- app_assoc | now constructor].
      * intros (new & -> & Hn). apply Forall2_cons_inv_l in Hn as (c' & new' & Hc' & Hn & ->).
        assert (c' = c) by congruence. subst c'.
        exists new'. split; [now rewrite <- app_assoc | exact Hn].
    + split; [discriminate |].
      intros (new & _ & Hn). apply Forall2_cons_inv_l in Hn as (c' & _ & Hc' & _).
      congruence.
Qed.

(** X21. [cd2c] returns a list of charts exactly when every definition is
    converted, and then the charts are the conversions of the
    definitions, one for one and in their order; otherwise it returns the
    error of the first definition that is not converted. *)
Theorem cd2c_converts (sys : System) (cds : list ChartDefinition) :
  (forall cs, cd2c sys cds = inl cs <->
              Forall2 (fun cd c => chartDefToChart sys cd = inl c) cds cs)
  /\ (forall e, cd2c sys cds = inr e <->
                exists before cd after,
                  cds = (before ++ cd :: after)%list
                  /\ Forall (fun cd => exists c, chartDefToChart sys cd = inl c) before
                  /\ chartDefToChart sys cd = inr e).
Proof.
  split.
  - intros cs. unfold cd2c. rewrite cd2c_from_converts. split.
    + now intros (new & -> & Hn).
    + intros Hn. eauto.
  - intros e. unfold cd2c. generalize (@nil Chart).
    induction cds as [| cd rest IH]; intros acc; simpl.
    + split; [discriminate |]. intros (before & cd & after & Heq & _).
      now destruct before.
    + destruct (chartDefToChart sys cd) as [c | e'] eqn:Hc.
      * rewrite IH. split.
        -- intros (before & cd' & after & -> & Hb & He).
           exists (cd :: before), cd', after. repeat split; [constructor; eauto | exact He].
        -- intros (before & cd' & after & Heq & Hb & He).
           destruct before as [| b0 before']; simpl in Heq; injection Heq as <- ->.
           ++ congruence.
           ++ apply Forall_cons in Hb as [_ Hb]. eauto 10.
      * split.
        -- intros [= <-]. exists [], cd, rest. repeat split; [constructor | exact Hc].
        -- intros (before & cd' & after & Heq & Hb & He).
           destruct before as [| b0 before']; simpl in Heq; injection Heq as <- ->.
           ++ congruence.
           ++ apply Forall_cons in Hb as [[c Hc'] _]. congruence.
Qed.

(** X22. [buildReleaseMap] gives every chart title the release name of
    prefix and title, and has no other key; for a title that occurs
    twice the first chart decides, and decides the same. *)
Theorem buildReleaseMap_lookup (ReleaseName : string -> string) (instConfig : installCfg)
    (cs : list Chart) (t : string) :
  buildReleaseMap ReleaseName instConfig cs !! t
  = if bool_decide (t ∈ map Title cs)
    then Some (ReleaseName (releaseNamePrefix instConfig +:+ t))
    else None.
Proof.
  unfold buildReleaseMap.
  assert (Hgen : forall (rm : gmap string string),
    (forall k v, rm !! k = Some v -> v = ReleaseName (releaseNamePrefix instConfig +:+ k)) ->
    foldl (fun rm c =>
             match rm !! Title c with
             | Some _ => rm
             | None => <[Title c := ReleaseName (releaseNamePrefix instConfig +:+ Title c)]> rm
             end) rm cs !! t
    = if bool_decide (t ∈ map Title cs)
      then Some (ReleaseName (releaseNamePrefix instConfig +:+ t))
      else rm !! t).
  { induction cs as [| c rest IH]; intros rm Hrm; simpl; [reflexivity |].
    destruct (rm !! Title c) as [v |] eqn:Hc.
    - rewrite IH by exact Hrm.
      destruct (decide (t = Title c)) as [-> | Hne].
      + rewrite (bool_decide_eq_true_2 (Title c ∈ Title c :: map Title rest))
          by apply list_elem_of_here.
        destruct (bool_decide (Title c ∈ map Title rest)); [reflexivity |].
        rewrite Hc. f_equal. now apply Hrm.
      + destruct (bool_decide (t ∈ map Title rest)) eqn:Hin.
        * apply bool_decide_eq_true in Hin.
          now rewrite bool_decide_eq_true_2 by (now apply list_elem_of_further).
        * apply bool_decide_eq_false in Hin.
          rewrite bool_decide_eq_false_2; [reflexivity |].
          intros Hin'. apply elem_of_cons in Hin' as [? | ?]; contradiction.
    - rewrite IH.
      2:{ intros k v. destruct (decide (Title c = k)) as [<- | Hne].
          - rewrite lookup_insert_eq. now intros [= <-].
          - rewrite lookup_insert_ne by exact Hne. apply Hrm. }
      destruct (decide (t = Title c)) as [-> | Hne].
      + rewrite (bool_decide_eq_true_2 (Title c ∈ Title c :: map Title rest))
          by apply list_elem_of_here.
        destruct (bool_decide (Title c ∈ map Title rest)); [reflexivity |].
        apply lookup_insert_eq.
      + rewrite lookup_insert_ne by congruence.
        destruct (bool_decide (t ∈ map Title rest)) eqn:Hin.
        * apply bool_decide_eq_true in Hin.
          now rewrite bool_decide_eq_true_2 by (now apply list_elem_of_further).
        * apply bool_decide_eq_false in Hin.
          rewrite bool_decide_eq_false_2; [reflexivity |].
          intros Hin'. apply elem_of_cons in Hin' as [? | ?]; contradiction. }
  rewrite Hgen; [| intros k v Hk; rewrite lookup_empty in Hk; discriminate].
  destruct (bool_decide (t ∈ map Title cs)); [reflexivity | apply lookup_empty].
Qed.

End CommandLine.

Section CommandLineTimeout.
Import Metahelm InstallNotions Cmd CmdCases.
Context `{ChartDecls}.

(** X23. The timeout [Install] gives a chart converted by [chartDefToChart]
    of [cmd/install.go]: the default when the definition has no primary
    deployment or no timeout, even if its timeout string is set and does
    not parse; otherwise the parsed duration, or the default when that
    is zero. *)
Theorem converted_chart_timeout (sys : System) (cd : ChartDefinition) (c : Chart) :
  chartDefToChart sys cd = inl c ->
  (cd_PrimaryDeployment cd = "" \/ cd_Timeout cd = "" ->
   WaitTimeout (with_default_timeout c) = DefaultDeploymentTimeout)
  /\ (cd_PrimaryDeployment cd <> "" -> cd_Timeout cd <> "" ->
      exists d, time_ParseDuration sys (cd_Timeout cd) = inl d
                /\ WaitTimeout (with_default_timeout c)
                   = if d =? 0 then DefaultDeploymentTimeout else d).
Proof.
  unfold chartDefToChart.
  destruct (if String.eqb (cd_ValuesPath cd) "" then inl [] else _) as [b | e];
    [| discriminate].
  destruct (String.eqb_spec (cd_PrimaryDeployment cd) "") as [Hp | Hp]; simpl.
  { intros [= <-]. split; [reflexivity | contradiction]. }
  destruct (String.eqb_spec (cd_Timeout cd) "") as [Ht | Ht]; simpl.
  { intros [= <-]. split; [reflexivity | contradiction]. }
  destruct (time_ParseDuration sys (cd_Timeout cd)) as [d | e]; [| discriminate].
  intros [= <-]. split; [intros [? | ?]; contradiction |].
  intros _ _. exists d. split; [reflexivity |].
  unfold with_default_timeout. simpl. now destruct (d =? 0).
Qed.

End CommandLineTimeout.

Section CommandLineTimeoutExample.
Import Metahelm InstallCases InstallNotions Cmd CmdCases.

Lemma converted_chart_timeout_witness :
  let cd := definition "redis" "" "soon" false false [] in
  validateChart (system test_definitions) cd
  = Some "error with timeout: time: invalid duration soon"
  /\ exists c, chartDefToChart (system test_definitions) cd = inl c
               /\ WaitTimeout (with_default_timeout (H := decls) c) = 600 * 1000000000.
Proof.
  intros cd. split; [reflexivity |]. eexists. split; [reflexivity |].
  apply (proj1 (converted_chart_timeout (H := decls) (system test_definitions) cd _ eq_refl)).
  now left.
Defined.

End CommandLineTimeoutExample.
